(** * FCApy: interval pattern structures, multi-valued contexts and
      decision-lattice predictors

    A shallow embedding of
    - [fcapy/mvcontext/pattern_structure.py] ([IntervalPS]),
    - [fcapy/mvcontext/mvcontext.py] ([MVContext]),
    - [fcapy/ml/decision_lattice.py] ([DecisionLatticeClassifier],
      [DecisionLatticeRegressor]),
    together with the properties that the specification states about them.

    Conventions of the embedding.
    - A Python call that may raise is a computation in [result]; the
      exception classes that the modelled code can raise are the
      constructors of [exn].
    - Numbers that are compared only (the raw values of an interval
      pattern structure and the bounds of its descriptions) are integers
      extended with the two infinities of [math.inf].  Numbers that are
      divided (probabilities, means) are exact rationals.
    - Object and concept indices are natural numbers; Python's negative
      indices are outside the model.
    - A Python [dict] that is iterated is an association list in
      insertion order; a [dict] that is only looked up is a [gmap];
      a Python [set] of indices is a [gset]. *)

From Stdlib Require Import ZArith QArith.
From stdpp Require Import base option list sorting gmap strings pretty.

(** ** Exceptions and the error monad *)

Inductive exn : Set :=
  | IndexError
  | KeyError
  | TypeError
  | ValueError
  | AssertionError
  | AttributeError
  | ZeroDivisionError.

Inductive result (A : Type) : Type :=
  | Ok (a : A)
  | Raise (e : exn).
Arguments Ok {A} a.
Arguments Raise {A} e.

Global Instance result_ret : MRet result := λ A a, Ok a.
Global Instance result_bind : MBind result := λ A B f m,
  match m with
  | Ok a => f a
  | Raise e => Raise e
  end.
Global Instance result_fmap : FMap result := λ A B f m,
  match m with
  | Ok a => Ok (f a)
  | Raise e => Raise e
  end.

(** [l[i]] for a non-negative index. *)
Definition getitem {A} (l : list A) (i : nat) : result A :=
  match l !! i with
  | Some a => Ok a
  | None => Raise IndexError
  end.

(** [assert c] *)
Definition py_assert (c : bool) : result unit :=
  if c then Ok tt else Raise AssertionError.

(** A list comprehension whose body may raise: elements are evaluated
    from left to right and the first exception escapes. *)
Fixpoint comprehension {A B} (f : A → result B) (l : list A) : result (list B) :=
  match l with
  | [] => Ok []
  | a :: l' => b ← f a; bs ← comprehension f l'; Ok (b :: bs)
  end.

(** [enumerate(l)] *)
Definition enumerate {A} (l : list A) : list (nat * A) :=
  zip (seq 0 (length l)) l.

(** [zip( *rows )]: the transposition of a list of rows, cut at the
    shortest row; no rows give no columns. *)
Fixpoint zip_star {A} (rows : list (list A)) : list (list A) :=
  match rows with
  | [] => []
  | [r] => (λ x, [x]) <$> r
  | r :: rows' => zip_with cons r (zip_star rows')
  end.

(** ** Extended integers *)

Inductive ext : Set :=
  | NegInf
  | Fin (z : Z)
  | PosInf.

Global Instance ext_eq_dec : EqDecision ext.
Proof. solve_decision. Defined.

(** [a <= b] *)
Definition ext_leb (a b : ext) : bool :=
  match a, b with
  | NegInf, _ => true
  | _, PosInf => true
  | Fin x, Fin y => (x <=? y)%Z
  | _, _ => false
  end.

(** [a < b] *)
Definition ext_ltb (a b : ext) : bool :=
  match a, b with
  | NegInf, NegInf => false
  | NegInf, _ => true
  | PosInf, _ => false
  | Fin x, Fin y => (x <? y)%Z
  | Fin _, PosInf => true
  | Fin _, NegInf => false
  end.

(** [a == b] *)
Definition ext_eqb (a b : ext) : bool := bool_decide (a = b).

Definition ext_le (a b : ext) : Prop := ext_leb a b = true.
Definition ext_lt (a b : ext) : Prop := ext_ltb a b = true.

(** [max(l)] and [min(l)]: the first extremal element; [ValueError] on
    an empty sequence. *)
Definition py_max (l : list ext) : result ext :=
  match l with
  | [] => Raise ValueError
  | x :: l' => Ok (foldl (λ m item, if ext_ltb m item then item else m) x l')
  end.

Definition py_min (l : list ext) : result ext :=
  match l with
  | [] => Raise ValueError
  | x :: l' => Ok (foldl (λ m item, if ext_ltb item m then item else m) x l')
  end.

(** ** Interval pattern structure *)

(** A description is a number (a point) or a 2-tuple (a range); [None]
    is the absent description. *)
Inductive interval : Set :=
  | Point (p : ext)
  | Range (lo hi : ext).

Global Instance interval_eq_dec : EqDecision interval.
Proof. solve_decision. Defined.

Record AbstractPS : Set := mkPS {
  _data : list ext;
  _name : string
}.

Global Instance AbstractPS_eq_dec : EqDecision AbstractPS.
Proof. solve_decision. Defined.

Module IntervalPS.

(** The loop of [intention_i] over [object_indexes[1:]]. *)
Fixpoint intention_loop (data : list ext) (rest : list nat) (min_ max_ : ext)
  : result (ext * ext) :=
  match rest with
  | [] => Ok (min_, max_)
  | g_i :: rest' =>
      v ← getitem data g_i;
      intention_loop data rest'
        (if ext_ltb v min_ then v else min_)
        (if ext_ltb max_ v then v else max_)
  end.

Definition intention_i (self : AbstractPS) (object_indexes : list nat)
  : result (option interval) :=
  match object_indexes with
  | [] => Ok None
  | g_0 :: rest =>
      v ← getitem (_data self) g_0;
      mm ← intention_loop (_data self) rest v v;
      if ext_eqb mm.1 mm.2 then Ok (Some (Point mm.1))
      else Ok (Some (Range mm.1 mm.2))
  end.

(** The bounds that [extension_i] and the generator functions read
    off a description. *)
Definition bounds (d : interval) : ext * ext :=
  match d with
  | Point p => (p, p)
  | Range lo hi => (lo, hi)
  end.

Definition extension_i (self : AbstractPS) (description : option interval)
  : list nat :=
  match description with
  | None => []
  | Some d =>
      let '(min_, max_) := bounds d in
      (filter (λ gv, ext_leb min_ gv.2 && ext_leb gv.2 max_ = true)
              (enumerate (_data self))).*1
  end.

Definition description_to_generators (description : interval)
  : list interval :=
  let description := bounds description in
  [Range NegInf description.2; Range description.1 PosInf].

Definition generators_to_description (generators : list interval)
  : result interval :=
  let generators := (λ gen, let '(a, b) := bounds gen in [a; b]) <$> generators in
  let generators := zip_star generators in
  row0 ← getitem generators 0;
  lo ← py_max row0;
  row1 ← getitem generators 1;
  hi ← py_min row1;
  _ ← py_assert (ext_leb lo hi);
  if ext_eqb lo hi then Ok (Point lo) else Ok (Range lo hi).

End IntervalPS.


(** ** Dictionaries *)

(** [d[k]] on a dictionary that is only looked up. *)
Definition dict_getitem `{Countable K} {V} (d : gmap K V) (k : K) : result V :=
  match d !! k with
  | Some v => Ok v
  | None => Raise KeyError
  end.

(** [d[k] = v] on a dictionary kept in insertion order: an existing key
    keeps its position and takes the new value, a new key goes last. *)
Fixpoint dict_setitem `{EqDecision K} {V} (k : K) (v : V) (d : list (K * V))
  : list (K * V) :=
  match d with
  | [] => [(k, v)]
  | (k', v') :: d' =>
      if decide (k = k') then (k', v) :: d' else (k', v') :: dict_setitem k v d'
  end.

(** A dictionary display [{k1: v1, k2: v2, ...}]. *)
Definition dict_display `{EqDecision K} {V} (items : list (K * V)) : list (K * V) :=
  foldl (λ d kv, dict_setitem kv.1 kv.2 d) [] items.

(** [{x: i for i, x in enumerate(l)}]: a later duplicate overwrites. *)
Definition index_map `{Countable K} (l : list K) : gmap K nat :=
  foldl (λ m ix, <[ix.2 := ix.1]> m) ∅ (enumerate l).

(** [sorted(s)] for a set of indices. *)
Definition sorted_indices (s : gset nat) : list nat :=
  merge_sort (≤) (elements s).

(** ** Multi-valued context *)

(** The classes that [pattern_types] may name. *)
Inductive ps_type : Set :=
  | IntervalPS_type.

Definition ps_construct (t : ps_type) (data : list ext) (name : string) : AbstractPS :=
  match t with
  | IntervalPS_type => mkPS data name
  end.

Record MVContext : Set := mkMVContext {
  _n_objects : nat;
  _n_attributes : nat;
  _object_names : list string;
  _attribute_names : list string;
  _pattern_structures : list AbstractPS;
  _description : option string
}.

Module MVContext.

(** [[str(idx) for idx in range(n)]] *)
Definition default_names (n : nat) : list string := pretty <$> seq 0 n.

(** Setter of [object_names]; that every name is a [str] holds by
    typing. *)
Definition set_object_names (n_objects : nat) (value : option (list string))
  : result (list string) :=
  match value with
  | None => Ok (default_names n_objects)
  | Some value =>
      _ ← py_assert (bool_decide (length value = n_objects));
      Ok value
  end.

Definition set_attribute_names (n_attributes : nat) (value : option (list string))
  : result (list string) :=
  match value with
  | None => Ok (default_names n_attributes)
  | Some value =>
      _ ← py_assert (bool_decide (length value = n_attributes));
      Ok value
  end.

(** [pattern_types] is a dictionary from attribute names to classes;
    keys that are tuples of names are outside the model. *)
Definition assemble_pattern_structures (attribute_names : list string)
    (data : list (list ext)) (pattern_types : option (list (string * ps_type)))
  : result (list AbstractPS) :=
  let defined_patterns : gset string :=
    match pattern_types with
    | Some pt => list_to_set pt.*1
    | None => ∅
    end in
  let missed_patterns : gset string :=
    list_to_set attribute_names ∖ defined_patterns in
  _ ← py_assert (bool_decide (size missed_patterns = 0));
  let names_to_indexes_map := index_map attribute_names in
  match pattern_types with
  | None => Raise AttributeError
  | Some pt =>
      comprehension (λ item,
        m_i ← dict_getitem names_to_indexes_map item.1;
        ps_data ← comprehension (λ row, getitem row m_i) data;
        Ok (ps_construct item.2 ps_data item.1)) pt
  end.

(** [MVContext(data, pattern_types, object_names, attribute_names,
    description=...)] for [data] that is not [None]. *)
Definition init (data : list (list ext))
    (pattern_types : option (list (string * ps_type)))
    (object_names attribute_names : option (list string))
    (description : option string) : result MVContext :=
  let n_objects := length data in
  row ← getitem data 0;
  let n_attributes := length row in
  object_names ← set_object_names n_objects object_names;
  attribute_names ← set_attribute_names n_attributes attribute_names;
  pattern_structures ← assemble_pattern_structures attribute_names data pattern_types;
  Ok (mkMVContext n_objects n_attributes object_names attribute_names
        pattern_structures description).

(** The loop of [extension_i] over the items of [descriptions_i]. *)
Fixpoint extension_loop (pattern_structures : list AbstractPS)
    (items : list (nat * option interval)) (extent : gset nat)
  : result (gset nat) :=
  match items with
  | [] => Ok extent
  | (ps_i, description) :: items' =>
      ps ← getitem pattern_structures ps_i;
      extension_loop pattern_structures items'
        (extent ∩ list_to_set (IntervalPS.extension_i ps description))
  end.

Definition extension_i (self : MVContext)
    (descriptions_i : list (nat * option interval)) : result (list nat) :=
  let extent : gset nat := list_to_set (seq 0 (_n_objects self)) in
  extent ← extension_loop (_pattern_structures self) descriptions_i extent;
  Ok (sorted_indices extent).

Definition intention_i (self : MVContext) (object_indexes : list nat)
  : result (list (nat * option interval)) :=
  comprehension (λ ix,
    d ← IntervalPS.intention_i ix.2 object_indexes;
    Ok (ix.1, d)) (enumerate (_pattern_structures self)).

(** The dictionary comprehension of [extension]. *)
Fixpoint descriptions_by_index (ps_names_map : gmap string nat)
    (items : list (string * option interval))
    (acc : list (nat * option interval))
  : result (list (nat * option interval)) :=
  match items with
  | [] => Ok acc
  | (ps_name, description) :: items' =>
      ps_i ← dict_getitem ps_names_map ps_name;
      descriptions_by_index ps_names_map items'
        (dict_setitem ps_i description acc)
  end.

Definition extension (self : MVContext)
    (descriptions : list (string * option interval)) : result (list string) :=
  let ps_names_map := index_map (_name <$> _pattern_structures self) in
  descriptions_i ← descriptions_by_index ps_names_map descriptions [];
  extension_i ← extension_i self descriptions_i;
  comprehension (λ g_i, getitem (_object_names self) g_i) extension_i.

Definition intention (self : MVContext) (objects : list string)
  : result (list (string * option interval)) :=
  let objects : gset string := list_to_set objects in
  let object_indexes :=
    (filter (λ gg, gg.2 ∈ objects) (enumerate (_object_names self))).*1 in
  descriptions_i ← intention_i self object_indexes;
  items ← comprehension (λ id,
    ps ← getitem (_pattern_structures self) id.1;
    Ok (_name ps, id.2)) descriptions_i;
  Ok (dict_display items).

End MVContext.

(** ** Python values held in concept measures *)

#[local] Unset Elimination Schemes.
Inductive pyval : Type :=
  | VNone
  | VNum (q : Q)
  | VStr (s : string)
  | VList (l : list pyval).
#[local] Set Elimination Schemes.

(** [a == b] *)
Fixpoint pyval_eqb (a b : pyval) : bool :=
  match a, b with
  | VNone, VNone => true
  | VNum p, VNum q => Qeq_bool p q
  | VStr s, VStr t => bool_decide (s = t)
  | VList l, VList k =>
      (fix go (l k : list pyval) : bool :=
         match l, k with
         | [], [] => true
         | x :: l', y :: k' => pyval_eqb x y && go l' k'
         | _, _ => false
         end) l k
  | _, _ => false
  end.

(** [a + b]; only numbers are added in the modelled code. *)
Definition pyval_add (a b : pyval) : result pyval :=
  match a, b with
  | VNum p, VNum q => Ok (VNum (p + q))
  | _, _ => Raise TypeError
  end.

(** [a > b]; only numbers are ordered in the modelled code. *)
Definition pyval_gtb (a b : pyval) : result bool :=
  match a, b with
  | VNum p, VNum q => Ok (negb (Qle_bool p q))
  | _, _ => Raise TypeError
  end.

(** [sum(l)]: starts from the integer [0] and adds from left to right. *)
Fixpoint pyval_sum_from (acc : pyval) (l : list pyval) : result pyval :=
  match l with
  | [] => Ok acc
  | v :: l' => acc' ← pyval_add acc v; pyval_sum_from acc' l'
  end.

Definition pyval_sum (l : list pyval) : result pyval :=
  pyval_sum_from (VNum 0) l.

(** [a / n] for a length [n]. *)
Definition pyval_div_len (a : pyval) (n : nat) : result pyval :=
  match a with
  | VNum p =>
      if bool_decide (n = 0) then Raise ZeroDivisionError
      else Ok (VNum (p / inject_Z (Z.of_nat n)))
  | _ => Raise TypeError
  end.

(** [max(l)]: the first item, replaced by each later item that is
    greater. *)
Fixpoint pyval_max_from (m : pyval) (l : list pyval) : result pyval :=
  match l with
  | [] => Ok m
  | item :: l' =>
      gt ← pyval_gtb item m;
      pyval_max_from (if gt : bool then item else m) l'
  end.

Definition pyval_max (l : list pyval) : result pyval :=
  match l with
  | [] => Raise ValueError
  | x :: l' => pyval_max_from x l'
  end.

(** Iterating over a value: only lists are iterable here. *)
Definition pyval_iter (v : pyval) : result (list pyval) :=
  match v with
  | VList l => Ok l
  | _ => Raise TypeError
  end.

(** ** Concept lattice, as far as the predictors use it *)

Record Concept : Type := mkConcept {
  extent_i : list nat;
  measures : gmap string pyval
}.

(** [c.measures = dict(metrics, **c.measures)]: the measures that the
    concept already has take precedence over the new metrics. *)
Definition merge_measures (metrics : gmap string pyval) (c : Concept) : Concept :=
  mkConcept (extent_i c) (measures c ∪ metrics).

(** Order used by [sorted] on class labels. *)
Definition str_le (s t : string) : Prop := String.leb s t = true.

Global Instance str_le_dec : RelDecision str_le.
Proof. intros s t. unfold str_le. apply _. Defined.

(** The class or classes that reach the maximum; one class is returned
    bare, several (or none) as a list. *)
Definition classes_reaching (class_names : list string) (probs : list pyval)
    (max_prob : pyval) : pyval :=
  let max_class :=
    (filter (λ cp, pyval_eqb cp.2 max_prob = true) (zip class_names probs)).*1 in
  match max_class with
  | [c] => VStr c
  | _ => VList (VStr <$> max_class)
  end.

Module DecisionLatticeClassifier.

Record state : Type := mkState {
  _lattice : list Concept;
  _class_names : option (list string)
}.

Definition calc_class_probability (class_ : string) (extent_i : list nat)
    (Y : list string) : result pyval :=
  if bool_decide (0 < length extent_i) then
    hits ← comprehension (λ g_i,
      y ← getitem Y g_i; Ok (bool_decide (y = class_))) extent_i;
    pyval_div_len (VNum (inject_Z (Z.of_nat (length (filter (λ b, b = true) hits)))))
                  (length extent_i)
  else Ok VNone.

(** Returns the metrics and the value assigned to [self._class_names]. *)
Definition calc_concept_prediction_metrics (self : state) (c_i : nat)
    (Y : list string) : result (gmap string pyval * list string) :=
  c ← getitem (_lattice self) c_i;
  let extent_i := extent_i c in
  let classes := merge_sort str_le (elements (list_to_set Y : gset string)) in
  if bool_decide (0 < length extent_i) then
    class_probs ← comprehension (λ class_,
      calc_class_probability class_ extent_i Y) classes;
    max_prob ← pyval_max class_probs;
    let max_class := classes_reaching classes class_probs max_prob in
    Ok ({[ "class_probabilities" := VList class_probs;
           "most_probable_class" := max_class;
           "maximum_class_probability" := max_prob ]}, classes)
  else
    Ok ({[ "class_probabilities" := VNone;
           "most_probable_class" := VNone;
           "maximum_class_probability" := VNone ]}, classes).

(** The loop of [fit] over the concepts of the built lattice. *)
Fixpoint fit_loop (self : state) (c_is : list nat) (Y : list string)
  : result state :=
  match c_is with
  | [] => Ok self
  | c_i :: c_is' =>
      mc ← calc_concept_prediction_metrics self c_i Y;
      c ← getitem (_lattice self) c_i;
      fit_loop (mkState (<[c_i := merge_measures mc.1 c]> (_lattice self))
                        (Some mc.2)) c_is' Y
  end.

(** [fit]; [built] is what the lattice builder returned for [X]. *)
Definition fit (self : state) (built : list Concept) (Y : list string)
  : result state :=
  fit_loop (mkState built (_class_names self)) (seq 0 (length built)) Y.

Definition average_concepts_class_probabilities (self : state)
    (concepts_i : list nat) : result (list pyval) :=
  predictions ← comprehension (λ c_i,
    c ← getitem (_lattice self) c_i;
    dict_getitem (measures c) "class_probabilities") concepts_i;
  rows ← comprehension pyval_iter predictions;
  comprehension (λ row,
    if bool_decide (0 < length row) then
      s ← pyval_sum row; pyval_div_len s (length row)
    else Ok VNone) (zip_star rows).

Definition average_concepts_predictions (self : state)
    (concepts_i : list nat) : result pyval :=
  probs_per_class ← average_concepts_class_probabilities self concepts_i;
  max_prob ← pyval_max probs_per_class;
  match _class_names self with
  | None => Raise AttributeError
  | Some class_names =>
      Ok (classes_reaching class_names probs_per_class max_prob)
  end.

(** [predict]; [bottom_concepts] is what the tracer returned for [X],
    [n_objects] is [X.n_objects]. *)
Definition predict (self : state) (bottom_concepts : list (list nat))
    (n_objects : nat) : result (list pyval) :=
  comprehension (λ g_i,
    cs ← getitem bottom_concepts g_i;
    average_concepts_predictions self cs) (seq 0 n_objects).

Definition predict_proba (self : state) (bottom_concepts : list (list nat))
    (n_objects : nat) : result (list (list pyval)) :=
  comprehension (λ g_i,
    cs ← getitem bottom_concepts g_i;
    average_concepts_class_probabilities self cs) (seq 0 n_objects).

End DecisionLatticeClassifier.

Module DecisionLatticeRegressor.

Definition calc_concept_prediction_metrics (lattice : list Concept)
    (c_i : nat) (Y : list Q) : result (gmap string pyval) :=
  c ← getitem lattice c_i;
  let extent_i := extent_i c in
  if bool_decide (length extent_i ≠ 0) then
    ys ← comprehension (λ g_i, y ← getitem Y g_i; Ok (VNum y)) extent_i;
    s ← pyval_sum ys;
    mean ← pyval_div_len s (length extent_i);
    Ok {[ "mean_y" := mean ]}
  else Ok {[ "mean_y" := VNone ]}.

Fixpoint fit_loop (lattice : list Concept) (c_is : list nat) (Y : list Q)
  : result (list Concept) :=
  match c_is with
  | [] => Ok lattice
  | c_i :: c_is' =>
      metrics ← calc_concept_prediction_metrics lattice c_i Y;
      c ← getitem lattice c_i;
      fit_loop (<[c_i := merge_measures metrics c]> lattice) c_is' Y
  end.

(** [fit]; [built] is what the lattice builder returned for [X]. *)
Definition fit (built : list Concept) (Y : list Q) : result (list Concept) :=
  fit_loop built (seq 0 (length built)) Y.

Definition average_concepts_predictions (lattice : list Concept)
    (concepts_i : list nat) : result pyval :=
  predictions ← comprehension (λ c_i,
    c ← getitem lattice c_i;
    dict_getitem (measures c) "mean_y") concepts_i;
  if bool_decide (0 < length predictions) then
    s ← pyval_sum predictions; pyval_div_len s (length predictions)
  else Ok VNone.

(** [predict]; [bottom_concepts] is what the tracer returned for [X],
    [n_objects] is [X.n_objects]. *)
Definition predict (lattice : list Concept) (bottom_concepts : list (list nat))
    (n_objects : nat) : result (list pyval) :=
  comprehension (λ g_i,
    cs ← getitem bottom_concepts g_i;
    average_concepts_predictions lattice cs) (seq 0 n_objects).

End DecisionLatticeRegressor.

(** ** Pattern structure: data replacement, indexing, comparison *)

Module AbstractPSMethods.

(** Setter of [data]. *)
Definition set_data (self : AbstractPS) (value : list ext) : result AbstractPS :=
  _ ← py_assert (bool_decide (length value = length (_data self)));
  Ok (mkPS value (_name self)).

(** [self[item]]: [item] is an iterable of indices or a single index. *)
Definition __getitem__ (self : AbstractPS) (item : list nat + nat)
  : result (list ext + ext) :=
  match item with
  | inl item =>
      data ← comprehension (λ g, getitem (_data self) g) item; Ok (inl data)
  | inr item =>
      data ← getitem (_data self) item; Ok (inr data)
  end.

(** [self == other] *)
Definition __eq__ (self other : AbstractPS) : bool :=
  bool_decide (_data self = _data other) && bool_decide (_name self = _name other).

End AbstractPSMethods.

(** [l == k] on lists of pattern structures: equal lengths and equal
    items, position by position. *)
Fixpoint ps_list_eq (l k : list AbstractPS) : bool :=
  match l, k with
  | [], [] => true
  | x :: l', y :: k' => AbstractPSMethods.__eq__ x y && ps_list_eq l' k'
  | _, _ => false
  end.

(** ** Multi-valued context: comparison *)

Module MVContextCompare.

Definition __eq__ (self other : MVContext) : result bool :=
  if negb (bool_decide (_object_names self = _object_names other))
  then Raise ValueError
  else if negb (bool_decide (_attribute_names self = _attribute_names other))
  then Raise ValueError
  else Ok (ps_list_eq (_pattern_structures self) (_pattern_structures other)).

Definition __ne__ (self other : MVContext) : result bool :=
  if negb (bool_decide (_object_names self = _object_names other))
  then Raise ValueError
  else if negb (bool_decide (_attribute_names self = _attribute_names other))
  then Raise ValueError
  else Ok (negb (ps_list_eq (_pattern_structures self) (_pattern_structures other))).

End MVContextCompare.

(** ** Specification-side notions *)

Definition is_maximum (m : ext) (l : list ext) : Prop :=
  m ∈ l ∧ ∀ x, x ∈ l → ext_le x m.

Definition is_minimum (m : ext) (l : list ext) : Prop :=
  m ∈ l ∧ ∀ x, x ∈ l → ext_le m x.


(** ** Fixtures *)

(** The scenario of the specification: values [1, 5, 10]. *)
Definition ps_1_5_10 : AbstractPS := mkPS [Fin 1; Fin 5; Fin 10] "x".


(** The shape of a context that the constructor builds: one name per
    object and one raw value per object in every pattern structure. *)
Definition well_formed (K : MVContext) : Prop :=
  length (_object_names K) = _n_objects K ∧
  Forall (λ ps, length (_data ps) = _n_objects K) (_pattern_structures K).

(** Two objects, two interval attributes. *)
Definition data_2x2 : list (list ext) := [[Fin 1; Fin 5]; [Fin 5; Fin 1]].

Definition types_AB : option (list (string * ps_type)) :=
  Some [("A", IntervalPS_type); ("B", IntervalPS_type)].

(** [MVContext(data_2x2, types_AB, object_names=[n1, n2],
    attribute_names=['A', 'B'])] *)
Definition context_2x2 (n1 n2 : string) : result MVContext :=
  MVContext.init data_2x2 types_AB (Some [n1; n2]) (Some ["A"; "B"]) None.

(** The context that [context_2x2 "g1" "g2"] builds. *)
Definition context_g1_g2 : MVContext :=
  mkMVContext 2 2 ["g1"; "g2"] ["A"; "B"]
    [mkPS [Fin 1; Fin 5] "A"; mkPS [Fin 5; Fin 1] "B"] None.

(** Sum and arithmetic mean of rationals. *)
Definition sum_Q (l : list Q) : Q := foldr Qplus 0%Q l.

Definition mean (l : list Q) : Q :=
  (sum_Q l / inject_Z (Z.of_nat (length l)))%Q.

(** A lattice as a builder may return it: the bottom concept has an
    empty extent. *)
Definition built_lattice : list Concept :=
  [mkConcept [] ∅; mkConcept [0; 1] ∅].

Definition labels_Y : list Q := [(1 # 2)%Q; 3%Q].

(** [built_lattice] after [DecisionLatticeRegressor.fit] on [labels_Y]. *)
Definition fitted_lattice : list Concept :=
  [mkConcept [] {[ "mean_y" := VNone ]};
   mkConcept [0; 1] {[ "mean_y" := VNum (7 # 4)%Q ]}].

(** Number of objects of the extent that carry the class. *)
Definition occurrences (class_ : string) (extent : list nat) (Y : list string) : nat :=
  length (filter (λ g, Y !! g = Some class_) extent).

(** Conditional probability of the class in the extent. *)
Definition class_probability (class_ : string) (extent : list nat)
    (Y : list string) : Q :=
  (inject_Z (Z.of_nat (occurrences class_ extent Y))
   / inject_Z (Z.of_nat (length extent)))%Q.

Definition is_max_Q (m : Q) (l : list Q) : Prop :=
  m ∈ l ∧ ∀ p, p ∈ l → (p <= m)%Q.

Global Instance Qeq_decision (p q : Q) : Decision (p == q)%Q := Qeq_dec p q.

(** The classes, in order, whose probability equals [m]; the two
    sequences are matched position by position. *)
Fixpoint classes_at (class_names : list string) (probs : list Q) (m : Q)
  : list string :=
  match class_names, probs with
  | c :: class_names', p :: probs' =>
      if decide (p == m)%Q then c :: classes_at class_names' probs' m
      else classes_at class_names' probs' m
  | _, _ => []
  end.

(** A single class stands for itself, any other number of classes is
    kept as a sequence. *)
Definition single_or_tied (tied : list string) : pyval :=
  match tied with
  | [c] => VStr c
  | _ => VList (VStr <$> tied)
  end.

(** The tie scenario: labels [A, A, B, B], all in one concept. *)
Definition tie_Y : list string := ["A"; "A"; "B"; "B"].

Definition tie_concept : Concept := mkConcept [0; 1; 2; 3] ∅.

Definition tie_unfit : DecisionLatticeClassifier.state :=
  DecisionLatticeClassifier.mkState [tie_concept] None.

(** [tie_unfit] after [fit] on [tie_Y]. *)
Definition tie_fitted : DecisionLatticeClassifier.state :=
  DecisionLatticeClassifier.mkState
    [mkConcept [0; 1; 2; 3]
       {[ "class_probabilities" := VList [VNum (2 # 4)%Q; VNum (2 # 4)%Q];
          "most_probable_class" := VList [VStr "A"; VStr "B"];
          "maximum_class_probability" := VNum (2 # 4)%Q ]}]
    (Some ["A"; "B"]).

(** The description with the given bounds, as [intention_i] and
    [generators_to_description] write it: a point when the bounds are
    equal, a range otherwise. *)
Definition interval_of (lo hi : ext) : interval :=
  if decide (lo = hi) then Point lo else Range lo hi.

(** An object index satisfies a description of a pattern structure. *)
Definition satisfies (self : AbstractPS) (g : nat) (d : interval) : Prop :=
  ∃ v, _data self !! g = Some v ∧
       ext_le (IntervalPS.bounds d).1 v ∧ ext_le v (IntervalPS.bounds d).2.

(** Interval containment of descriptions. *)
Definition within (d d' : interval) : Prop :=
  ext_le (IntervalPS.bounds d').1 (IntervalPS.bounds d).1 ∧
  ext_le (IntervalPS.bounds d).2 (IntervalPS.bounds d').2.

(** The labels of the objects of an extent. *)
Definition labels_of (Y : list Q) (extent : list nat) : list Q :=
  omap (λ g, Y !! g) extent.



(** Two concepts over the labels [A, A, B, B]: the first holds two
    objects of class [A] and one of class [B], the second two of class
    [B]. *)
Definition two_built : list Concept :=
  [mkConcept [0; 1; 2] ∅; mkConcept [2; 3] ∅].

Definition two_unfit : DecisionLatticeClassifier.state :=
  DecisionLatticeClassifier.mkState [] None.

(** [two_built] after [DecisionLatticeClassifier.fit] on [tie_Y]. *)
Definition two_fitted : DecisionLatticeClassifier.state :=
  DecisionLatticeClassifier.mkState
    [mkConcept [0; 1; 2]
       {[ "class_probabilities" := VList [VNum (2 # 3)%Q; VNum (1 # 3)%Q];
          "most_probable_class" := VStr "A";
          "maximum_class_probability" := VNum (2 # 3)%Q ]};
     mkConcept [2; 3]
       {[ "class_probabilities" := VList [VNum (0 # 2)%Q; VNum (2 # 2)%Q];
          "most_probable_class" := VStr "B";
          "maximum_class_probability" := VNum (2 # 2)%Q ]}]
    (Some ["A"; "B"]).
(** * Properties *)

(** ** The scenarios of the specification *)

Example scenario_intention :
  IntervalPS.intention_i ps_1_5_10 [0; 1] = Ok (Some (Range (Fin 1) (Fin 5))).
Proof. reflexivity. Qed.

Example scenario_extension_range :
  IntervalPS.extension_i ps_1_5_10 (Some (Range (Fin 1) (Fin 5))) = [0; 1].
Proof. reflexivity. Qed.

Example scenario_extension_point :
  IntervalPS.extension_i ps_1_5_10 (Some (Point (Fin 10))) = [2].
Proof. reflexivity. Qed.

Example scenario_inconsistent_generators :
  IntervalPS.generators_to_description [Range NegInf (Fin 2); Range (Fin 5) PosInf]
  = Raise AssertionError.
Proof. reflexivity. Qed.


(** ** The order on extended integers *)

Section ext_order.
Implicit Types a b c : ext.

Lemma ext_leb_refl a : ext_leb a a = true.
Proof. destruct a; simpl; auto using Z.leb_refl. Qed.

Lemma ext_leb_trans a b c :
  ext_leb a b = true → ext_leb b c = true → ext_leb a c = true.
Proof.
  destruct a, b, c; simpl; try done.
  rewrite !Z.leb_le. lia.
Qed.

Lemma ext_leb_antisym a b :
  ext_leb a b = true → ext_leb b a = true → a = b.
Proof.
  destruct a, b; simpl; try done.
  rewrite !Z.leb_le. intros. f_equal. lia.
Qed.

Lemma ext_ltb_leb a b : ext_ltb a b = true → ext_leb a b = true.
Proof.
  destruct a, b; simpl; try done.
  rewrite Z.ltb_lt, Z.leb_le. lia.
Qed.

Lemma ext_ltb_false a b : ext_ltb a b = false → ext_leb b a = true.
Proof.
  destruct a, b; simpl; try done.
  rewrite Z.ltb_ge, Z.leb_le. lia.
Qed.

Lemma ext_ltb_irrefl a : ext_ltb a a = false.
Proof. destruct a; simpl; auto using Z.ltb_irrefl. Qed.

(** [a < b] is the negation of [b <= a]: the order is total. *)
Lemma ext_ltb_negb_leb a b : ext_ltb a b = negb (ext_leb b a).
Proof.
  destruct a, b; simpl; try done.
  apply Z.ltb_antisym.
Qed.

Lemma ext_eqb_eq a b : ext_eqb a b = true ↔ a = b.
Proof. unfold ext_eqb. apply bool_decide_eq_true. Qed.
End ext_order.

(** ** Maximum and minimum of a sequence *)

Lemma foldl_max_spec (l : list ext) (x : ext) :
  is_maximum (foldl (λ m item, if ext_ltb m item then item else m) x l) (x :: l).
Proof.
  revert x. induction l as [|y l IH]; intros x; simpl.
  - split; [left|]. intros z ->%list_elem_of_singleton. apply ext_leb_refl.
  - destruct (IH (if ext_ltb x y then y else x)) as [Hin Hle]. split.
    + apply elem_of_cons in Hin as [->|Hin].
      * destruct (ext_ltb x y); [right|]; left.
      * do 2 right. done.
    + intros z Hz. unfold ext_le in *.
      assert (Hxy : ext_leb x (if ext_ltb x y then y else x) = true).
      { destruct (ext_ltb x y) eqn:E; [by apply ext_ltb_leb|apply ext_leb_refl]. }
      assert (Hyy : ext_leb y (if ext_ltb x y then y else x) = true).
      { destruct (ext_ltb x y) eqn:E; [apply ext_leb_refl|by apply ext_ltb_false]. }
      apply elem_of_cons in Hz as [->|Hz].
      * eapply ext_leb_trans; [exact Hxy|]. apply Hle. left.
      * apply elem_of_cons in Hz as [->|Hz].
        -- eapply ext_leb_trans; [exact Hyy|]. apply Hle. left.
        -- apply Hle. by right.
Qed.

Lemma foldl_min_spec (l : list ext) (x : ext) :
  is_minimum (foldl (λ m item, if ext_ltb item m then item else m) x l) (x :: l).
Proof.
  revert x. induction l as [|y l IH]; intros x; simpl.
  - split; [left|]. intros z ->%list_elem_of_singleton. apply ext_leb_refl.
  - destruct (IH (if ext_ltb y x then y else x)) as [Hin Hle]. split.
    + apply elem_of_cons in Hin as [->|Hin].
      * destruct (ext_ltb y x); [right|]; left.
      * do 2 right. done.
    + intros z Hz. unfold ext_le in *.
      assert (Hxy : ext_leb (if ext_ltb y x then y else x) x = true).
      { destruct (ext_ltb y x) eqn:E; [by apply ext_ltb_leb|apply ext_leb_refl]. }
      assert (Hyy : ext_leb (if ext_ltb y x then y else x) y = true).
      { destruct (ext_ltb y x) eqn:E; [apply ext_leb_refl|by apply ext_ltb_false]. }
      apply elem_of_cons in Hz as [->|Hz].
      * eapply ext_leb_trans; [|exact Hxy]. apply Hle. left.
      * apply elem_of_cons in Hz as [->|Hz].
        -- eapply ext_leb_trans; [|exact Hyy]. apply Hle. left.
        -- apply Hle. by right.
Qed.

Lemma py_max_spec (l : list ext) :
  l ≠ [] → ∃ m, py_max l = Ok m ∧ is_maximum m l.
Proof.
  destruct l as [|x l]; [done|]. intros _. eexists. split; [done|].
  apply foldl_max_spec.
Qed.

Lemma py_min_spec (l : list ext) :
  l ≠ [] → ∃ m, py_min l = Ok m ∧ is_minimum m l.
Proof.
  destruct l as [|x l]; [done|]. intros _. eexists. split; [done|].
  apply foldl_min_spec.
Qed.

(** ** Generic facts about the Python helpers *)

Lemma bind_Ok {X Y} (x : X) (f : X → result Y) : (Ok x ≫= f) = f x.
Proof. reflexivity. Qed.

Lemma getitem_Ok {A} (l : list A) (i : nat) (a : A) :
  getitem l i = Ok a ↔ l !! i = Some a.
Proof. unfold getitem. destruct (l !! i); split; congruence. Qed.

Lemma getitem_lt {A} (l : list A) (i : nat) :
  i < length l → ∃ a, getitem l i = Ok a ∧ l !! i = Some a.
Proof.
  intros [a Ha]%lookup_lt_is_Some_2. exists a. by rewrite getitem_Ok.
Qed.

Lemma enumerate_lookup {A} (l : list A) (g : nat) (v : A) :
  (g, v) ∈ enumerate l ↔ l !! g = Some v.
Proof.
  unfold enumerate. rewrite list_elem_of_lookup. split.
  - intros [i Hi]. rewrite lookup_zip_with in Hi.
    destruct (seq 0 (length l) !! i) as [j|] eqn:Hj; [|done].
    destruct (l !! i) as [w|] eqn:Hw; [|done]. simpl in Hi.
    apply lookup_seq in Hj as [-> _]. by simplify_eq.
  - intros Hg. exists g. rewrite lookup_zip_with.
    rewrite lookup_seq_lt by (by eapply lookup_lt_Some). simpl.
    by rewrite Hg.
Qed.

Lemma enumerate_fst {A} (l : list A) : (enumerate l).*1 = seq 0 (length l).
Proof. unfold enumerate. apply fst_zip. by rewrite length_seq. Qed.

Lemma StronglySorted_lt_seq (j n : nat) : StronglySorted lt (seq j n).
Proof.
  revert j. induction n as [|n IH]; intros j; simpl; constructor; [done|].
  apply Forall_forall. intros x Hx%elem_of_seq. lia.
Qed.

Lemma StronglySorted_sublist {A} (R : relation A) (l k : list A) :
  l `sublist_of` k → StronglySorted R k → StronglySorted R l.
Proof.
  induction 1 as [|x l k Hs IH|x l k Hs IH]; intros Hk; [done|..].
  - apply StronglySorted_inv in Hk as [Hk Hx]. constructor; [by apply IH|].
    rewrite Forall_forall in Hx |- *. intros y Hy. apply Hx.
    by apply (sublist_subseteq _ _ Hs).
  - apply StronglySorted_inv in Hk as [Hk _]. by apply IH.
Qed.

Lemma StronglySorted_lt_NoDup (l : list nat) : StronglySorted lt l → NoDup l.
Proof.
  induction 1 as [|x l Hl IH Hx]; constructor; [|done].
  intros Hin. rewrite Forall_forall in Hx. specialize (Hx x Hin). lia.
Qed.

Lemma zip_star_pairs (l : list (ext * ext)) :
  l ≠ [] →
  zip_star ((λ ab : ext * ext, [ab.1; ab.2]) <$> l) = [l.*1; l.*2].
Proof.
  induction l as [|[a b] l IH]; [done|]. intros _.
  destruct l as [|ab' l']; [done|].
  change (zip_star ((λ ab : ext * ext, [ab.1; ab.2]) <$> (a, b) :: ab' :: l'))
    with (zip_with cons [a; b]
            (zip_star ((λ ab : ext * ext, [ab.1; ab.2]) <$> ab' :: l'))).
  by rewrite IH.
Qed.

(** ** Interval pattern structure *)

Section interval_ps.
Import IntervalPS.
Implicit Types (self : AbstractPS) (d : interval) (g : nat).

Lemma extension_i_elem self d g :
  g ∈ extension_i self (Some d) ↔
  ∃ v, _data self !! g = Some v ∧ ext_le (bounds d).1 v ∧ ext_le v (bounds d).2.
Proof.
  unfold extension_i. destruct (bounds d) as [lo hi]. simpl.
  rewrite list_elem_of_fmap. split.
  - intros [[g' v] [-> [Hp Hin]%list_elem_of_filter]]. simpl in *.
    apply enumerate_lookup in Hin. apply andb_true_iff in Hp. by exists v.
  - intros (v & Hv & Hlo & Hhi). exists (g, v). split; [done|].
    apply list_elem_of_filter. split.
    + simpl. apply andb_true_iff. done.
    + by apply enumerate_lookup.
Qed.

Lemma extension_i_sorted self (o : option interval) :
  StronglySorted lt (extension_i self o).
Proof.
  destruct o as [d|]; [|constructor].
  unfold extension_i. destruct (bounds d) as [lo hi].
  eapply StronglySorted_sublist; [|apply (StronglySorted_lt_seq 0 (length (_data self)))].
  rewrite <- enumerate_fst. apply fmap_sublist, sublist_filter.
Qed.

Lemma extension_i_lt self (o : option interval) g :
  g ∈ extension_i self o → g < length (_data self).
Proof.
  destruct o as [d|]; [|by intros ?%elem_of_nil].
  intros (v & Hv & _)%extension_i_elem. by eapply lookup_lt_Some.
Qed.

Lemma intention_loop_Ok (data : list ext) (rest : list nat) (mn mx : ext) :
  Forall (λ g, g < length data) rest →
  ∃ mn' mx', intention_loop data rest mn mx = Ok (mn', mx').
Proof.
  revert mn mx. induction rest as [|g rest IH]; intros mn mx Hall; simpl.
  - by eexists _, _.
  - apply Forall_cons in Hall as [Hg Hall].
    destruct (getitem_lt data g Hg) as (v & -> & _). simpl. by apply IH.
Qed.

Lemma intention_loop_bounds (data : list ext) (rest : list nat) (mn mx mn' mx' : ext) :
  intention_loop data rest mn mx = Ok (mn', mx') →
  ext_le mn' mn ∧ ext_le mx mx' ∧
  ∀ g, g ∈ rest → ∃ v, data !! g = Some v ∧ ext_le mn' v ∧ ext_le v mx'.
Proof.
  revert mn mx. induction rest as [|g rest IH]; intros mn mx; simpl.
  - intros [= -> ->]. split_and!; try apply ext_leb_refl.
    by intros g ?%elem_of_nil.
  - destruct (getitem data g) as [v|] eqn:Hv; [|done]. simpl.
    apply getitem_Ok in Hv.
    intros (Hmn & Hmx & Hin)%IH. unfold ext_le in *.
    assert (ext_leb mn' mn = true ∧ ext_leb mn' v = true) as [? ?].
    { destruct (ext_ltb v mn) eqn:E.
      - split; [|done]. eapply ext_leb_trans; [done|]. by apply ext_ltb_leb.
      - split; [done|]. eapply ext_leb_trans; [done|]. by apply ext_ltb_false. }
    assert (ext_leb mx mx' = true ∧ ext_leb v mx' = true) as [? ?].
    { destruct (ext_ltb mx v) eqn:E.
      - split; [|done]. eapply ext_leb_trans; [|done]. by apply ext_ltb_leb.
      - split; [done|]. eapply ext_leb_trans; [|done]. by apply ext_ltb_false. }
    split_and!; try done.
    intros g' [->|Hg']%elem_of_cons; [by exists v|by apply Hin].
Qed.

Lemma generators_rows (gens : list interval) :
  gens ≠ [] →
  zip_star ((λ gen, let '(a, b) := bounds gen in [a; b]) <$> gens)
  = [(bounds <$> gens).*1; (bounds <$> gens).*2].
Proof.
  intros Hne. rewrite <- zip_star_pairs by (by destruct gens).
  f_equal. rewrite <- list_fmap_compose. apply list_fmap_ext.
  intros _ gen _. simpl. by destruct (bounds gen).
Qed.

End interval_ps.

(** ** Claims about the interval pattern structure *)

(** C8. [IntervalPS.intention_i] applied to an empty sequence of object
    indices returns the absent description [None] and raises nothing;
    [IntervalPS.extension_i] applied to [None] returns the empty
    sequence of indices. *)
Theorem intention_extension_of_nothing (self : AbstractPS) :
  IntervalPS.intention_i self [] = Ok None ∧
  IntervalPS.extension_i self None = [].
Proof. split; reflexivity. Qed.

(** C9. For every description, a point or a range, the indices that
    [IntervalPS.extension_i] returns are strictly ascending, hence free
    of duplicates; they are exactly the indices whose raw value lies in
    the closed interval; and a point [p] is read as the interval
    [[p, p]]. *)
Theorem extension_i_ascending (self : AbstractPS) (d : interval) :
  StronglySorted lt (IntervalPS.extension_i self (Some d)) ∧
  NoDup (IntervalPS.extension_i self (Some d)) ∧
  (∀ g, g ∈ IntervalPS.extension_i self (Some d) ↔
        ∃ v, _data self !! g = Some v ∧
             ext_le (IntervalPS.bounds d).1 v ∧ ext_le v (IntervalPS.bounds d).2) ∧
  (∀ p, IntervalPS.extension_i self (Some (Point p))
        = IntervalPS.extension_i self (Some (Range p p))).
Proof.
  split_and!.
  - apply extension_i_sorted.
  - apply StronglySorted_lt_NoDup, extension_i_sorted.
  - apply extension_i_elem.
  - done.
Qed.

(** C3. For every non-empty sequence [S] of valid object indices,
    [intention_i] returns a description and every index of [S] occurs in
    the [extension_i] of that description. *)
Theorem galois_closure (self : AbstractPS) (S : list nat) :
  S ≠ [] →
  Forall (λ g, g < length (_data self)) S →
  ∃ d, IntervalPS.intention_i self S = Ok (Some d) ∧
       ∀ g, g ∈ S → g ∈ IntervalPS.extension_i self (Some d).
Proof.
  destruct S as [|g0 rest]; [done|]. intros _ [Hg0 Hrest]%Forall_cons.
  unfold IntervalPS.intention_i.
  destruct (getitem_lt _ _ Hg0) as (v & -> & Hv). simpl.
  destruct (intention_loop_Ok _ _ v v Hrest) as (mn & mx & Hloop).
  rewrite Hloop. simpl.
  apply intention_loop_bounds in Hloop as (Hmn & Hmx & Hin).
  assert (Hall : ∀ g, g ∈ g0 :: rest →
            ∃ w, _data self !! g = Some w ∧ ext_le mn w ∧ ext_le w mx).
  { intros g [->|Hg]%elem_of_cons; [by exists v|by apply Hin]. }
  destruct (ext_eqb mn mx) eqn:E.
  - apply ext_eqb_eq in E as <-. eexists. split; [done|].
    intros g Hg. apply extension_i_elem. by apply Hall.
  - eexists. split; [done|].
    intros g Hg. apply extension_i_elem. by apply Hall.
Qed.

Lemma galois_closure_witness :
  ∃ d, IntervalPS.intention_i ps_1_5_10 [2; 0] = Ok (Some d) ∧
       ∀ g, g ∈ [2; 0] → g ∈ IntervalPS.extension_i ps_1_5_10 (Some d).
Proof.
  apply (galois_closure ps_1_5_10 [2; 0]).
  - discriminate.
  - repeat constructor; simpl; lia.
Defined.

(** C5. For every non-empty sequence of generators, each a point or a
    range, [generators_to_description] works on the greatest lower bound
    [lo] and the least upper bound [hi] of the generators: it raises
    [AssertionError] if and only if [lo > hi], and otherwise returns the
    point [lo] when [lo = hi] and the range [(lo, hi)] when [lo < hi]. *)
Theorem generators_to_description_spec (generators : list interval) :
  generators ≠ [] →
  ∃ lo hi,
    is_maximum lo (IntervalPS.bounds <$> generators).*1 ∧
    is_minimum hi (IntervalPS.bounds <$> generators).*2 ∧
    (IntervalPS.generators_to_description generators = Raise AssertionError
     ↔ ext_lt hi lo) ∧
    (¬ ext_lt hi lo →
     IntervalPS.generators_to_description generators
     = Ok (if decide (lo = hi) then Point lo else Range lo hi)).
Proof.
  intros Hne. unfold IntervalPS.generators_to_description.
  rewrite generators_rows by done. simpl.
  destruct (py_max_spec (IntervalPS.bounds <$> generators).*1) as (lo & -> & Hlo).
  { by destruct generators. }
  destruct (py_min_spec (IntervalPS.bounds <$> generators).*2) as (hi & -> & Hhi).
  { by destruct generators. }
  exists lo, hi. split_and!; [done|done|..]; simpl.
  - unfold ext_lt. rewrite ext_ltb_negb_leb.
    destruct (ext_leb lo hi); simpl; [|done].
    split; [|done]. by destruct (ext_eqb lo hi).
  - unfold ext_lt. rewrite ext_ltb_negb_leb.
    destruct (ext_leb lo hi); simpl; [|done]. intros _.
    unfold ext_eqb. case_bool_decide; case_decide; done.
Qed.

Lemma generators_to_description_spec_witness :
  ∃ lo hi,
    is_maximum lo (IntervalPS.bounds <$> [Range NegInf (Fin 7); Point (Fin 3)]).*1 ∧
    is_minimum hi (IntervalPS.bounds <$> [Range NegInf (Fin 7); Point (Fin 3)]).*2 ∧
    (IntervalPS.generators_to_description [Range NegInf (Fin 7); Point (Fin 3)]
     = Raise AssertionError ↔ ext_lt hi lo) ∧
    (¬ ext_lt hi lo →
     IntervalPS.generators_to_description [Range NegInf (Fin 7); Point (Fin 3)]
     = Ok (if decide (lo = hi) then Point lo else Range lo hi)).
Proof.
  apply (generators_to_description_spec [Range NegInf (Fin 7); Point (Fin 3)]).
  discriminate.
Defined.

(** C10. On an empty sequence of generators [generators_to_description]
    raises [IndexError], from indexing the transposed rows, and not the
    [AssertionError] of inverted bounds. *)
Theorem generators_to_description_empty :
  IntervalPS.generators_to_description [] = Raise IndexError ∧
  IntervalPS.generators_to_description [] ≠ Raise AssertionError.
Proof. split; [reflexivity|discriminate]. Qed.

(** The aggregation of two range generators, step by step. *)
Lemma generators_of_two_ranges (a b c d : ext) :
  IntervalPS.generators_to_description [Range a b; Range c d]
  = (lo ← py_max [a; c]; hi ← py_min [b; d];
     _ ← py_assert (ext_leb lo hi);
     if ext_eqb lo hi then Ok (Point lo) else Ok (Range lo hi)).
Proof. reflexivity. Qed.

Lemma py_max_NegInf (a : ext) : py_max [NegInf; a] = Ok a.
Proof. by destruct a. Qed.

Lemma py_min_PosInf (a : ext) : py_min [a; PosInf] = Ok a.
Proof. by destruct a. Qed.

(** C2, as stated, fails on a range whose two bounds are equal: the
    round trip returns the point, which is not the range. *)
Lemma roundtrip_degenerate_range :
  IntervalPS.generators_to_description
    (IntervalPS.description_to_generators (Range (Fin 3) (Fin 3)))
  = Ok (Point (Fin 3)) ∧
  IntervalPS.generators_to_description
    (IntervalPS.description_to_generators (Range (Fin 3) (Fin 3)))
  ≠ Ok (Range (Fin 3) (Fin 3)).
Proof. split; [reflexivity|discriminate]. Qed.

(** C2, amended. For every description [d] that is a point or a range
    [(min, max)] with [min <= max], [generators_to_description] applied
    to [description_to_generators d] returns [d] itself when [d] is a
    point or a range with [min < max], and the point [min] when [d] is a
    range with [min = max]. *)
Theorem roundtrip_generators (d : interval) :
  ext_le (IntervalPS.bounds d).1 (IntervalPS.bounds d).2 →
  IntervalPS.generators_to_description (IntervalPS.description_to_generators d)
  = Ok (match d with
        | Point p => Point p
        | Range lo hi => if decide (lo = hi) then Point lo else Range lo hi
        end).
Proof.
  intros Hle. unfold IntervalPS.description_to_generators.
  rewrite generators_of_two_ranges, py_max_NegInf, py_min_PosInf.
  simpl in Hle. unfold ext_le in Hle.
  destruct d as [p|lo hi]; simpl in *; rewrite Hle; simpl; unfold ext_eqb.
  - by rewrite bool_decide_eq_true_2.
  - case_bool_decide; case_decide; done.
Qed.

Lemma roundtrip_generators_witness :
  IntervalPS.generators_to_description
    (IntervalPS.description_to_generators (Range (Fin 1) (Fin 5)))
  = Ok (Range (Fin 1) (Fin 5)).
Proof.
  apply (roundtrip_generators (Range (Fin 1) (Fin 5))). reflexivity.
Defined.

(** ** Dictionaries, sets and sorting *)

Lemma index_map_foldl `{Countable K} (l : list K) (j : nat) (m : gmap K nat)
    (k : K) (i : nat) :
  foldl (λ m ix, <[ix.2 := ix.1]> m) m (zip (seq j (length l)) l) !! k = Some i →
  (j ≤ i ∧ l !! (i - j) = Some k) ∨ m !! k = Some i.
Proof.
  revert j m. induction l as [|x l IH]; intros j m; simpl; [by right|].
  intros [[Hle Hl]|Hm]%IH.
  - left. split; [lia|]. replace (i - j) with (S (i - S j)) by lia. done.
  - simpl in Hm. apply lookup_insert_Some in Hm as [[-> ->]|[_ Hm]]; [|by right].
    left. split; [done|]. by rewrite Nat.sub_diag.
Qed.

Lemma index_map_foldl_is_Some `{Countable K} (l : list K) (j : nat)
    (m : gmap K nat) (k : K) :
  k ∈ l ∨ is_Some (m !! k) →
  is_Some (foldl (λ m ix, <[ix.2 := ix.1]> m) m (zip (seq j (length l)) l) !! k).
Proof.
  revert j m. induction l as [|x l IH]; intros j m; simpl.
  - by intros [?%elem_of_nil|?].
  - intros Hk. apply IH. simpl.
    destruct (decide (x = k)) as [->|Hne].
    + right. rewrite lookup_insert_eq. by eexists.
    + destruct Hk as [[?|?]%elem_of_cons|?]; [done|by left|right].
      by rewrite lookup_insert_ne.
Qed.

Lemma index_map_Some `{Countable K} (l : list K) (k : K) (i : nat) :
  index_map l !! k = Some i → l !! i = Some k.
Proof.
  unfold index_map, enumerate. intros [[_ Hl]|Hm]%index_map_foldl.
  - by rewrite Nat.sub_0_r in Hl.
  - by rewrite lookup_empty in Hm.
Qed.

Lemma index_map_elem `{Countable K} (l : list K) (k : K) :
  k ∈ l → ∃ i, index_map l !! k = Some i ∧ l !! i = Some k.
Proof.
  intros Hk. destruct (index_map_foldl_is_Some l 0 ∅ k) as [i Hi]; [by left|].
  exists i. split; [done|]. by apply index_map_Some.
Qed.

Lemma sorted_indices_unique (s : gset nat) (l : list nat) :
  StronglySorted lt l → (∀ x, x ∈ l ↔ x ∈ s) → sorted_indices s = l.
Proof.
  intros Hl Hs. unfold sorted_indices.
  apply (StronglySorted_unique (≤)).
  - apply StronglySorted_merge_sort; apply _.
  - clear Hs. induction Hl as [|x l Hl IH Hx]; constructor; [done|].
    eapply Forall_impl; [done|]. simpl. lia.
  - rewrite merge_sort_Permutation. apply NoDup_Permutation.
    + apply NoDup_elements.
    + by apply StronglySorted_lt_NoDup.
    + intros x. by rewrite elem_of_elements, Hs.
Qed.

Lemma StronglySorted_lt_filter (P : nat → Prop) `{∀ x, Decision (P x)}
    (l : list nat) :
  StronglySorted lt l → StronglySorted lt (filter P l).
Proof. apply StronglySorted_sublist, sublist_filter. Qed.

(** A comprehension over [getitem] succeeds on indices in range and
    returns the items in order. *)
Lemma comprehension_getitem {A} (names : list A) (l : list nat) :
  Forall (λ g, g < length names) l →
  ∃ r, comprehension (λ g_i, getitem names g_i) l = Ok r ∧
       Forall2 (λ g x, names !! g = Some x) l r.
Proof.
  induction 1 as [|g l Hg Hl (r & IH & Hr)]; simpl.
  - by exists [].
  - destruct (getitem_lt names g Hg) as (x & -> & Hx). simpl. rewrite IH. simpl.
    exists (x :: r). split; [done|]. by constructor.
Qed.

Lemma Forall2_filter_names {A} `{EqDecision A} (names : list A)
    (l k : list nat) (r q : list A) :
  NoDup names →
  Forall2 (λ g x, names !! g = Some x) l r →
  Forall2 (λ g x, names !! g = Some x) k q →
  Forall2 (λ g x, names !! g = Some x) (filter (λ g, g ∈ k) l) (filter (λ x, x ∈ q) r).
Proof.
  intros Hnd Hlr Hkq. induction Hlr as [|g x l r Hgx Hlr IH]; [constructor|].
  rewrite !filter_cons.
  assert (g ∈ k ↔ x ∈ q) as Hiff.
  { split.
    - intros Hg. apply list_elem_of_lookup in Hg as [i Hi].
      destruct (Forall2_lookup_l _ _ _ _ _ Hkq Hi) as (y & Hy & Hgy).
      rewrite Hgx in Hgy. simplify_eq. by eapply list_elem_of_lookup_2.
    - intros Hx. apply list_elem_of_lookup in Hx as [i Hi].
      destruct (Forall2_lookup_r _ _ _ _ _ Hkq Hi) as (g' & Hg' & Hgx').
      rewrite (NoDup_lookup _ _ _ _ Hnd Hgx Hgx'). by eapply list_elem_of_lookup_2. }
  destruct (decide (g ∈ k)) as [Hg|Hg], (decide (x ∈ q)) as [Hx|Hx];
    try tauto. by constructor.
Qed.

Lemma Forall2_functional {A} (names : list A) (l : list nat) (r r' : list A) :
  Forall2 (λ g x, names !! g = Some x) l r →
  Forall2 (λ g x, names !! g = Some x) l r' →
  r = r'.
Proof.
  intros H. revert r'. induction H as [|g x l r Hgx _ IH]; intros r' H'.
  - by apply Forall2_nil_inv_l in H'.
  - apply Forall2_cons_inv_l in H' as (x' & r'' & Hgx' & Hr & ->).
    f_equal; [congruence|by apply IH].
Qed.

(** ** Multi-valued context *)

Lemma comprehension_Forall2 {A B} (f : A → result B) (l : list A) (r : list B) :
  comprehension f l = Ok r → Forall2 (λ a b, f a = Ok b) l r.
Proof.
  revert r. induction l as [|a l IH]; intros r; simpl.
  - intros [= <-]. constructor.
  - destruct (f a) as [b|] eqn:Hb; [|done]. simpl.
    destruct (comprehension f l) as [bs|]; [|done]. simpl.
    intros [= <-]. constructor; [done|by apply IH].
Qed.

Lemma comprehension_length {A B} (f : A → result B) (l : list A) (r : list B) :
  comprehension f l = Ok r → length r = length l.
Proof. intros H%comprehension_Forall2. symmetry. by eapply Forall2_length. Qed.

Lemma comprehension_getitem_all {A} (pre names : list A) :
  comprehension (λ g_i, getitem (pre ++ names) g_i)
    (seq (length pre) (length names)) = Ok names.
Proof.
  revert pre. induction names as [|x names IH]; intros pre; simpl; [done|].
  assert (getitem (pre ++ x :: names) (length pre) = Ok x) as ->.
  { by apply getitem_Ok, list_lookup_middle. }
  simpl.
  specialize (IH (pre ++ [x])). rewrite length_app, Nat.add_1_r in IH.
  rewrite <- (assoc_L (++)) in IH. simpl in IH. by rewrite IH.
Qed.

Section mvcontext.
Implicit Types (K : MVContext) (a b : option interval).

Lemma set_object_names_length (n : nat) (value : option (list string))
    (names : list string) :
  MVContext.set_object_names n value = Ok names → length names = n.
Proof.
  destruct value as [value|]; simpl.
  - case_bool_decide; [|done]. simpl. by intros [= <-].
  - intros [= <-]. unfold MVContext.default_names.
    by rewrite length_fmap, length_seq.
Qed.

Lemma assemble_pattern_structures_length (attribute_names : list string)
    (data : list (list ext)) (pattern_types : option (list (string * ps_type)))
    (pss : list AbstractPS) :
  MVContext.assemble_pattern_structures attribute_names data pattern_types = Ok pss →
  Forall (λ ps, length (_data ps) = length data) pss.
Proof.
  unfold MVContext.assemble_pattern_structures.
  destruct (py_assert _); [|done]. simpl.
  destruct pattern_types as [pt|]; [|done].
  intros H%comprehension_Forall2. apply Forall_forall. intros ps Hps.
  apply list_elem_of_lookup in Hps as [i Hi].
  destruct (Forall2_lookup_r _ _ _ _ _ H Hi) as ([name t] & _ & Hitem).
  simpl in Hitem.
  destruct (dict_getitem _ name) as [m_i|]; [|done]. simpl in Hitem.
  destruct (comprehension _ data) as [ps_data|] eqn:Hd; [|done].
  simpl in Hitem. injection Hitem as <-.
  apply comprehension_length in Hd. by destruct t.
Qed.

(** Every context that the constructor returns is well formed. *)
Lemma init_well_formed (data : list (list ext))
    (pattern_types : option (list (string * ps_type)))
    (object_names attribute_names : option (list string))
    (description : option string) K :
  MVContext.init data pattern_types object_names attribute_names description = Ok K →
  well_formed K.
Proof.
  unfold MVContext.init.
  destruct (getitem data 0) as [row|]; [|done]. simpl.
  destruct (MVContext.set_object_names _ _) as [onames|] eqn:Ho; [|done]. simpl.
  destruct (MVContext.set_attribute_names _ _) as [anames|]; [|done]. simpl.
  destruct (MVContext.assemble_pattern_structures _ _ _) as [pss|] eqn:Hp; [|done].
  simpl. intros [= <-]. split; simpl.
  - by eapply set_object_names_length.
  - by eapply assemble_pattern_structures_length.
Qed.

Lemma extension_i_nil K :
  MVContext.extension_i K [] = Ok (seq 0 (_n_objects K)).
Proof.
  unfold MVContext.extension_i. simpl. f_equal.
  apply sorted_indices_unique; [apply StronglySorted_lt_seq|].
  intros x. by rewrite elem_of_list_to_set.
Qed.

Lemma extension_i_one K (i : nat) (ps : AbstractPS) a :
  well_formed K →
  _pattern_structures K !! i = Some ps →
  MVContext.extension_i K [(i, a)] = Ok (IntervalPS.extension_i ps a).
Proof.
  intros [_ Hwf] Hps. unfold MVContext.extension_i. simpl.
  apply getitem_Ok in Hps as Hget. rewrite Hget. simpl. f_equal.
  apply sorted_indices_unique; [apply extension_i_sorted|].
  intros x. rewrite elem_of_intersection, !elem_of_list_to_set, elem_of_seq.
  rewrite Forall_forall in Hwf.
  specialize (Hwf ps (list_elem_of_lookup_2 _ _ _ Hps)).
  split; [|tauto]. intros Hx. split; [|done].
  apply extension_i_lt in Hx. lia.
Qed.

Lemma extension_i_two K (i j : nat) (psA psB : AbstractPS) a b :
  well_formed K →
  _pattern_structures K !! i = Some psA →
  _pattern_structures K !! j = Some psB →
  MVContext.extension_i K [(i, a); (j, b)]
  = Ok (filter (λ g, g ∈ IntervalPS.extension_i psB b)
               (IntervalPS.extension_i psA a)).
Proof.
  intros [_ Hwf] HA HB. unfold MVContext.extension_i. simpl.
  apply getitem_Ok in HA as HgA. apply getitem_Ok in HB as HgB.
  rewrite HgA. simpl. rewrite HgB. simpl. f_equal.
  apply sorted_indices_unique.
  { apply StronglySorted_lt_filter, extension_i_sorted. }
  intros x. rewrite list_elem_of_filter.
  rewrite !elem_of_intersection, !elem_of_list_to_set, elem_of_seq.
  rewrite Forall_forall in Hwf.
  specialize (Hwf psA (list_elem_of_lookup_2 _ _ _ HA)).
  split; [|tauto]. intros [Hb Ha]. apply extension_i_lt in Ha as Hlt.
  split_and!; try done; lia.
Qed.

Lemma extension_i_in_range K (i : nat) (ps : AbstractPS) a :
  well_formed K →
  _pattern_structures K !! i = Some ps →
  Forall (λ g, g < length (_object_names K)) (IntervalPS.extension_i ps a).
Proof.
  intros [Hn Hwf] Hps. apply Forall_forall. intros g Hg%extension_i_lt.
  rewrite Forall_forall in Hwf.
  specialize (Hwf ps (list_elem_of_lookup_2 _ _ _ Hps)). lia.
Qed.

End mvcontext.

Section conjunction.
Implicit Types (K : MVContext) (a b : option interval) (A B : string).

Lemma descriptions_by_index_one (m : gmap string nat) A (i : nat) a :
  m !! A = Some i →
  MVContext.descriptions_by_index m (dict_display [(A, a)]) [] = Ok [(i, a)].
Proof. intros Hi. simpl. unfold dict_getitem. by rewrite Hi. Qed.

Lemma descriptions_by_index_two (m : gmap string nat) A B (i j : nat) a b :
  A ≠ B → i ≠ j → m !! A = Some i → m !! B = Some j →
  MVContext.descriptions_by_index m (dict_display [(A, a); (B, b)]) []
  = Ok [(i, a); (j, b)].
Proof.
  intros HAB Hij Hi Hj. unfold dict_display. simpl.
  destruct (decide (B = A)) as [->|_]; [done|]. simpl.
  unfold dict_getitem. rewrite Hi. simpl. rewrite Hj. simpl.
  by destruct (decide (j = i)) as [->|_].
Qed.

Lemma pattern_structure_by_name K A :
  A ∈ _name <$> _pattern_structures K →
  ∃ i ps, index_map (_name <$> _pattern_structures K) !! A = Some i ∧
          _pattern_structures K !! i = Some ps ∧ _name ps = A.
Proof.
  intros (i & Hi & Hl)%index_map_elem.
  rewrite list_lookup_fmap in Hl.
  destruct (_pattern_structures K !! i) as [ps|] eqn:Hps; [|done].
  exists i, ps. split_and!; [done|done|]. by injection Hl.
Qed.

Lemma extension_empty K :
  well_formed K →
  MVContext.extension K (dict_display []) = Ok (_object_names K).
Proof.
  intros [Hn _]. unfold MVContext.extension.
  change (MVContext.descriptions_by_index _ (dict_display []) [])
    with (Ok ([] : list (nat * option interval))).
  rewrite bind_Ok, extension_i_nil, bind_Ok, <- Hn.
  apply (comprehension_getitem_all [] (_object_names K)).
Qed.

Lemma extension_one K A (i : nat) (ps : AbstractPS) a :
  well_formed K →
  index_map (_name <$> _pattern_structures K) !! A = Some i →
  _pattern_structures K !! i = Some ps →
  ∃ ea, MVContext.extension K (dict_display [(A, a)]) = Ok ea ∧
        Forall2 (λ g x, _object_names K !! g = Some x)
                (IntervalPS.extension_i ps a) ea.
Proof.
  intros Hwf Hi Hps. unfold MVContext.extension.
  rewrite (descriptions_by_index_one _ A i a) by done.
  rewrite bind_Ok, (extension_i_one K i ps a), bind_Ok by done.
  apply comprehension_getitem. by eapply extension_i_in_range.
Qed.

Lemma extension_two K A B (i j : nat) (psA psB : AbstractPS) a b :
  well_formed K →
  A ≠ B →
  index_map (_name <$> _pattern_structures K) !! A = Some i →
  index_map (_name <$> _pattern_structures K) !! B = Some j →
  _pattern_structures K !! i = Some psA →
  _pattern_structures K !! j = Some psB →
  ∃ eab, MVContext.extension K (dict_display [(A, a); (B, b)]) = Ok eab ∧
         Forall2 (λ g x, _object_names K !! g = Some x)
                 (filter (λ g, g ∈ IntervalPS.extension_i psB b)
                         (IntervalPS.extension_i psA a)) eab.
Proof.
  intros Hwf HAB Hi Hj HpsA HpsB.
  assert (i ≠ j) as Hij.
  { intros ->. apply index_map_Some in Hi, Hj. congruence. }
  unfold MVContext.extension.
  rewrite (descriptions_by_index_two _ A B i j a b) by done.
  rewrite bind_Ok, (extension_i_two K i j psA psB a b), bind_Ok by done.
  apply comprehension_getitem.
  pose proof (extension_i_in_range K i psA a Hwf HpsA) as Hall.
  rewrite Forall_forall in Hall |- *.
  intros g [_ Hg]%list_elem_of_filter. by apply Hall.
Qed.

End conjunction.

(** ** Claims about the multi-valued context *)

(** C4, as stated, fails on a context in which two objects carry the
    same name, which the constructor accepts: object 0 alone satisfies
    [A = 1], object 1 alone satisfies [B = 1], both are called ["x"], so
    ["x"] is in both single-attribute extensions while the extension of
    the two descriptions together is empty. *)
Lemma conjunctive_extension_same_names :
  ∃ K ea eb eab,
    context_2x2 "x" "x" = Ok K ∧
    MVContext.extension K (dict_display [("A", Some (Point (Fin 1)))]) = Ok ea ∧
    MVContext.extension K (dict_display [("B", Some (Point (Fin 1)))]) = Ok eb ∧
    MVContext.extension K
      (dict_display [("A", Some (Point (Fin 1))); ("B", Some (Point (Fin 1)))])
    = Ok eab ∧
    "x" ∈ ea ∧ "x" ∈ eb ∧ "x" ∉ eab.
Proof.
  eexists _, ["x"], ["x"], [].
  split_and!; [by vm_compute..| | |].
  - by left.
  - by left.
  - apply not_elem_of_nil.
Qed.

(** C4, amended. For every context that the constructor returns and
    whose object names are pairwise distinct, for every two different
    attributes [A] and [B] that have a pattern structure and all
    descriptions [a] and [b]: the three calls of [extension] return, and
    [extension({A: a, B: b})] is the sequence of [extension({A: a})]
    restricted to the names in [extension({B: b})], so that a name is in
    it exactly when it is in both; with no descriptions [extension]
    returns all object names. *)
Theorem conjunctive_extension (data : list (list ext))
    (pattern_types : option (list (string * ps_type)))
    (object_names attribute_names : option (list string))
    (description : option string) (K : MVContext) (A B : string)
    (a b : option interval) :
  MVContext.init data pattern_types object_names attribute_names description = Ok K →
  NoDup (_object_names K) →
  A ≠ B →
  A ∈ _name <$> _pattern_structures K →
  B ∈ _name <$> _pattern_structures K →
  ∃ ea eb eab,
    MVContext.extension K (dict_display [(A, a)]) = Ok ea ∧
    MVContext.extension K (dict_display [(B, b)]) = Ok eb ∧
    MVContext.extension K (dict_display [(A, a); (B, b)]) = Ok eab ∧
    eab = filter (λ x, x ∈ eb) ea ∧
    (∀ x, x ∈ eab ↔ x ∈ ea ∧ x ∈ eb) ∧
    MVContext.extension K (dict_display []) = Ok (_object_names K).
Proof.
  intros Hwf%init_well_formed Hnd HAB HA HB.
  destruct (pattern_structure_by_name K A HA) as (i & psA & Hi & HpsA & _).
  destruct (pattern_structure_by_name K B HB) as (j & psB & Hj & HpsB & _).
  destruct (extension_one K A i psA a Hwf Hi HpsA) as (ea & Hea & Hra).
  destruct (extension_one K B j psB b Hwf Hj HpsB) as (eb & Heb & Hrb).
  destruct (extension_two K A B i j psA psB a b Hwf HAB Hi Hj HpsA HpsB)
    as (eab & Heab & Hrab).
  assert (eab = filter (λ x, x ∈ eb) ea) as Heq.
  { eapply Forall2_functional; [exact Hrab|]. by apply Forall2_filter_names. }
  exists ea, eb, eab. split_and!; try done.
  - intros x. rewrite Heq, list_elem_of_filter. tauto.
  - by apply extension_empty.
Qed.

Lemma conjunctive_extension_witness :
  ∃ ea eb eab,
    MVContext.extension context_g1_g2
      (dict_display [("A", Some (Range (Fin 1) (Fin 5)))]) = Ok ea ∧
    MVContext.extension context_g1_g2
      (dict_display [("B", Some (Point (Fin 1)))]) = Ok eb ∧
    MVContext.extension context_g1_g2
      (dict_display [("A", Some (Range (Fin 1) (Fin 5))); ("B", Some (Point (Fin 1)))])
    = Ok eab ∧
    eab = filter (λ x, x ∈ eb) ea ∧
    (∀ x, x ∈ eab ↔ x ∈ ea ∧ x ∈ eb) ∧
    MVContext.extension context_g1_g2 (dict_display [])
    = Ok (_object_names context_g1_g2).
Proof.
  apply (conjunctive_extension data_2x2 types_AB (Some ["g1"; "g2"])
           (Some ["A"; "B"]) None context_g1_g2 "A" "B"
           (Some (Range (Fin 1) (Fin 5))) (Some (Point (Fin 1)))).
  - vm_compute. reflexivity.
  - apply (bool_decide_unpack _). vm_compute. exact I.
  - discriminate.
  - apply (bool_decide_unpack _). vm_compute. exact I.
  - apply (bool_decide_unpack _). vm_compute. exact I.
Defined.

(** ** Sums of Python numbers *)

Lemma comprehension_of_Forall2 {A B} (f : A → result B) (l : list A) (r : list B) :
  Forall2 (λ a b, f a = Ok b) l r → comprehension f l = Ok r.
Proof.
  induction 1 as [|a b l r Hab _ IH]; simpl; [done|].
  by rewrite Hab, IH.
Qed.

Lemma foldl_Qplus (a : Q) (l : list Q) :
  (foldl Qplus a l == a + sum_Q l)%Q.
Proof.
  revert a. induction l as [|x l IH]; intros a; simpl.
  - by rewrite Qplus_0_r.
  - rewrite IH. unfold sum_Q. simpl. by rewrite Qplus_assoc.
Qed.

Lemma pyval_sum_from_nums (a : Q) (l : list Q) :
  pyval_sum_from (VNum a) (VNum <$> l) = Ok (VNum (foldl Qplus a l)).
Proof.
  revert a. induction l as [|x l IH]; intros a; simpl; [done|]. apply IH.
Qed.

Lemma pyval_sum_nums (l : list Q) :
  ∃ s, pyval_sum (VNum <$> l) = Ok (VNum s) ∧ (s == sum_Q l)%Q.
Proof.
  eexists. split; [apply pyval_sum_from_nums|].
  by rewrite foldl_Qplus, Qplus_0_l.
Qed.

Lemma pyval_sum_from_None (a : Q) (l : list pyval) :
  VNone ∈ l → pyval_sum_from (VNum a) l = Raise TypeError.
Proof.
  revert a. induction l as [|v l IH]; intros a; [by intros ?%elem_of_nil|].
  intros [<-|Hin]%elem_of_cons; [done|].
  simpl. destruct v as [|q| |]; simpl; try done. by apply IH.
Qed.

(** ** Regressor *)

Section regressor.
Import DecisionLatticeRegressor.

(** What the traced concepts hold under ["mean_y"]. *)
Lemma traced_predictions (lattice : list Concept) (concepts_i : list nat)
    (ms : list pyval) :
  Forall2 (λ c_i m, ∃ c, lattice !! c_i = Some c ∧ measures c !! "mean_y" = Some m)
    concepts_i ms →
  comprehension (λ c_i, c ← getitem lattice c_i;
                         dict_getitem (measures c) "mean_y") concepts_i = Ok ms.
Proof.
  intros H. apply comprehension_of_Forall2.
  eapply Forall2_impl; [exact H|]. simpl.
  intros c_i m (c & Hc & Hm). apply getitem_Ok in Hc. rewrite Hc. simpl.
  unfold dict_getitem. by rewrite Hm.
Qed.

End regressor.

(** [predict] collects, object by object, what the averaging of the
    traced concepts returns. *)
Lemma predict_per_object {A} (average : list nat → result A)
    (bottom_concepts : list (list nat)) (n_objects : nat) (predictions : list A) :
  comprehension (λ g_i, cs ← getitem bottom_concepts g_i; average cs)
    (seq 0 n_objects) = Ok predictions →
  ∀ g_i, g_i < n_objects →
    ∃ cs p, bottom_concepts !! g_i = Some cs ∧
            average cs = Ok p ∧ predictions !! g_i = Some p.
Proof.
  intros H%comprehension_Forall2 g_i Hg.
  destruct (Forall2_lookup_l _ _ _ g_i g_i H) as (p & Hp & Hf).
  { by apply lookup_seq_lt. }
  destruct (getitem bottom_concepts g_i) as [cs|] eqn:Hcs; [|done].
  apply getitem_Ok in Hcs. by exists cs, p.
Qed.

(** C1, as stated, fails on a fitted regressor.  A concept with an
    empty extent gets [mean_y = None]; for an object traced to that
    concept alone [predict] raises [TypeError] and returns nothing, and
    for an object traced to no concept [predict] returns [None] as an
    ordinary value and raises nothing. *)
Lemma regressor_absent_statistics :
  DecisionLatticeRegressor.fit built_lattice labels_Y = Ok fitted_lattice ∧
  DecisionLatticeRegressor.predict fitted_lattice [[0]] 1 = Raise TypeError ∧
  DecisionLatticeRegressor.predict fitted_lattice [[0]] 1 ≠ Ok [VNone] ∧
  DecisionLatticeRegressor.predict fitted_lattice [[]] 1 = Ok [VNone].
Proof. split_and!; [by vm_compute|by vm_compute|discriminate|by vm_compute]. Qed.

(** Averaging over traced concepts of which one holds [None] under
    ["mean_y"] raises [TypeError]: [sum] cannot add [None]. *)
Lemma regressor_prediction_absent_mean (lattice : list Concept)
    (concepts_i : list nat) (ms : list pyval) :
  Forall2 (λ c_i m, ∃ c, lattice !! c_i = Some c ∧ measures c !! "mean_y" = Some m)
    concepts_i ms →
  VNone ∈ ms →
  DecisionLatticeRegressor.average_concepts_predictions lattice concepts_i
  = Raise TypeError.
Proof.
  intros Hms Hin. apply traced_predictions in Hms.
  unfold DecisionLatticeRegressor.average_concepts_predictions.
  rewrite Hms. simpl. rewrite bool_decide_eq_true_2.
  - unfold pyval_sum. by rewrite pyval_sum_from_None.
  - destruct ms; [by apply elem_of_nil in Hin|simpl; lia].
Qed.

(** Averaging for one object: [None] when no concept was traced; the
    arithmetic mean when every traced concept holds a number under
    ["mean_y"]. *)
Lemma average_concepts_predictions_mean (lattice : list Concept) (concepts_i : list nat)
    (qs : list Q) :
  Forall2 (λ c_i q, ∃ c, lattice !! c_i = Some c ∧
                         measures c !! "mean_y" = Some (VNum q))
    concepts_i qs →
  DecisionLatticeRegressor.average_concepts_predictions lattice [] = Ok VNone ∧
  (concepts_i ≠ [] →
   ∃ q, DecisionLatticeRegressor.average_concepts_predictions lattice concepts_i
        = Ok (VNum q) ∧ (q == mean qs)%Q).
Proof.
  intros Hqs. split; [done|]. intros Hne.
  pose proof (Forall2_length _ _ _ Hqs) as Hlen.
  assert (0 < length qs) as Hpos.
  { rewrite <- Hlen. destruct concepts_i; [done|simpl; lia]. }
  assert (Forall2 (λ c_i m, ∃ c, lattice !! c_i = Some c ∧
                                 measures c !! "mean_y" = Some m)
            concepts_i (VNum <$> qs)) as Hms.
  { apply Forall2_fmap_r. eapply Forall2_impl; [exact Hqs|]. by intros. }
  apply traced_predictions in Hms.
  unfold DecisionLatticeRegressor.average_concepts_predictions.
  rewrite Hms. simpl. rewrite length_fmap.
  rewrite bool_decide_eq_true_2 by done.
  destruct (pyval_sum_nums qs) as (s & -> & Hs). simpl.
  rewrite bool_decide_eq_false_2 by lia.
  eexists. split; [done|]. unfold mean. by rewrite Hs.
Qed.

(** ** Maxima and ties among Python numbers *)

Lemma pyval_max_from_nums (x : Q) (l : list Q) :
  ∃ m, pyval_max_from (VNum x) (VNum <$> l) = Ok (VNum m) ∧ is_max_Q m (x :: l).
Proof.
  revert x. induction l as [|y l IH]; intros x; simpl.
  - exists x. split; [done|]. split; [left|].
    intros p ->%list_elem_of_singleton. apply Qle_refl.
  - destruct (IH (if negb (Qle_bool y x) then y else x)) as (m & Hm & Hin & Hle).
    exists m. split.
    { by destruct (negb (Qle_bool y x)). }
    assert ((x <= m)%Q ∧ (y <= m)%Q) as [Hx Hy].
    { destruct (Qle_bool y x) eqn:E; simpl in *.
      - apply Qle_bool_iff in E. split; [apply Hle; left|].
        eapply Qle_trans; [exact E|]. apply Hle. left.
      - assert (¬ (y <= x)%Q) as Hn by (rewrite <- Qle_bool_iff; congruence).
        apply Qnot_le_lt, Qlt_le_weak in Hn. split; [|apply Hle; left].
        eapply Qle_trans; [exact Hn|]. apply Hle. left. }
    split.
    + apply elem_of_cons in Hin as [->|Hin].
      * destruct (negb (Qle_bool y x)); [right|]; left.
      * by do 2 right.
    + intros p [->|[->|Hp]%elem_of_cons]%elem_of_cons; [done|done|].
      apply Hle. by right.
Qed.

Lemma pyval_max_nums (l : list Q) :
  l ≠ [] → ∃ m, pyval_max (VNum <$> l) = Ok (VNum m) ∧ is_max_Q m l.
Proof. destruct l as [|x l]; [done|]. intros _. apply pyval_max_from_nums. Qed.

Lemma pyval_eqb_nums (p q : Q) : pyval_eqb (VNum p) (VNum q) = true ↔ (p == q)%Q.
Proof. simpl. apply Qeq_bool_iff. Qed.

Lemma classes_reaching_at (class_names : list string) (probs : list Q) (m : Q) :
  classes_reaching class_names (VNum <$> probs) (VNum m)
  = single_or_tied (classes_at class_names probs m).
Proof.
  unfold classes_reaching, single_or_tied.
  assert ((filter (λ cp : string * pyval, pyval_eqb cp.2 (VNum m) = true)
             (zip class_names (VNum <$> probs))).*1
          = classes_at class_names probs m) as ->; [|done].
  revert probs. induction class_names as [|c cs IH]; intros [|p ps]; try done.
  simpl. rewrite filter_cons. simpl.
  destruct (decide (p == m)%Q) as [Hpm|Hpm].
  - rewrite decide_True by (by apply Qeq_bool_iff). simpl. by rewrite IH.
  - rewrite decide_False; [apply IH|].
    rewrite Qeq_bool_iff. done.
Qed.

Lemma classes_at_fmap (f : string → Q) (classes : list string) (m : Q) :
  classes_at classes (f <$> classes) m = filter (λ c, (f c == m)%Q) classes.
Proof.
  induction classes as [|c cs IH]; [done|].
  rewrite fmap_cons, filter_cons. cbn [classes_at]. rewrite IH.
  by destruct (decide (f c == m)%Q).
Qed.

(** ** Counting classes *)

Lemma sum_list_fmap_add {A} (f g : A → nat) (l : list A) :
  sum_list ((λ x, f x + g x) <$> l) = sum_list (f <$> l) + sum_list (g <$> l).
Proof. induction l as [|x l IH]; csimpl; [done|]. rewrite IH. lia. Qed.

Lemma sum_list_indicator `{EqDecision A} (y : A) (l : list A) :
  NoDup l →
  sum_list ((λ c, if decide (c = y) then 1 else 0) <$> l)
  = if decide (y ∈ l) then 1 else 0.
Proof.
  induction 1 as [|x l Hx Hl IH].
  - case_decide as H; [by apply elem_of_nil in H|done].
  - csimpl. rewrite IH.
    destruct (decide (x = y)) as [->|Hne], (decide (y ∈ l)) as [Hy|Hy]; [done|..].
    + rewrite decide_True; [done|left].
    + rewrite decide_True; [done|by right].
    + rewrite decide_False; [done|]. intros [?|?]%elem_of_cons; congruence.
Qed.

Lemma occurrences_cons (class_ : string) (g : nat) (extent : list nat)
    (Y : list string) (y : string) :
  Y !! g = Some y →
  occurrences class_ (g :: extent) Y
  = (if decide (class_ = y) then 1 else 0) + occurrences class_ extent Y.
Proof.
  intros Hy. unfold occurrences. rewrite filter_cons, Hy.
  destruct (decide (class_ = y)) as [->|Hne].
  - by rewrite decide_True.
  - rewrite decide_False; [done|congruence].
Qed.

(** Every object of the extent is counted for exactly one class. *)
Lemma occurrences_total (classes : list string) (extent : list nat)
    (Y : list string) :
  NoDup classes →
  (∀ y, y ∈ Y → y ∈ classes) →
  Forall (λ g, g < length Y) extent →
  sum_list ((λ c, occurrences c extent Y) <$> classes) = length extent.
Proof.
  intros Hnd Hcl. induction 1 as [|g extent Hg _ IH].
  - unfold occurrences. simpl. clear. induction classes; csimpl; done.
  - apply lookup_lt_is_Some_2 in Hg as [y Hy].
    rewrite (list_fmap_ext _
      (λ c, (if decide (c = y) then 1 else 0) + occurrences c extent Y)).
    2:{ intros _ c _. by apply occurrences_cons. }
    rewrite sum_list_fmap_add, IH, sum_list_indicator by done.
    rewrite decide_True; [done|]. apply Hcl. by eapply list_elem_of_lookup_2.
Qed.

(** ** Classifier *)

Section classifier.
Import DecisionLatticeClassifier.
Implicit Types (Y : list string) (extent : list nat).

Lemma class_hits (class_ : string) extent Y :
  Forall (λ g, g < length Y) extent →
  ∃ hits,
    comprehension (λ g_i, y ← getitem Y g_i; Ok (bool_decide (y = class_))) extent
    = Ok hits ∧
    length (filter (λ b : bool, b = true) hits) = occurrences class_ extent Y.
Proof.
  induction 1 as [|g extent Hg _ (hits & IH & Hlen)]; simpl.
  - by exists [].
  - destruct (getitem_lt Y g Hg) as (y & -> & Hy). simpl. rewrite IH. simpl.
    eexists. split; [done|].
    rewrite (occurrences_cons class_ g extent Y y Hy), filter_cons.
    destruct (decide (class_ = y)) as [->|Hne].
    + rewrite bool_decide_eq_true_2 by done. rewrite decide_True by done.
      simpl. by rewrite Hlen.
    + rewrite bool_decide_eq_false_2 by congruence.
      rewrite decide_False by done. by rewrite Hlen.
Qed.

Lemma calc_class_probability_Ok (class_ : string) extent Y :
  extent ≠ [] →
  Forall (λ g, g < length Y) extent →
  calc_class_probability class_ extent Y
  = Ok (VNum (class_probability class_ extent Y)).
Proof.
  intros Hne Hall. unfold calc_class_probability.
  assert (0 < length extent) as Hpos by (destruct extent; [done|simpl; lia]).
  rewrite bool_decide_eq_true_2 by done.
  destruct (class_hits class_ extent Y Hall) as (hits & -> & Hlen). simpl.
  rewrite bool_decide_eq_false_2 by lia.
  unfold class_probability. by rewrite Hlen.
Qed.

Lemma class_probabilities_Ok (classes : list string) extent Y :
  extent ≠ [] →
  Forall (λ g, g < length Y) extent →
  comprehension (λ class_, calc_class_probability class_ extent Y) classes
  = Ok (VNum <$> ((λ class_, class_probability class_ extent Y) <$> classes)).
Proof.
  intros Hne Hall. apply comprehension_of_Forall2.
  rewrite <- list_fmap_compose. apply Forall2_fmap_r, Forall_Forall2_diag.
  apply Forall_forall. intros class_ _. simpl.
  by apply calc_class_probability_Ok.
Qed.

Lemma observed_classes Y :
  NoDup (merge_sort str_le (elements (list_to_set Y : gset string))) ∧
  ∀ c, c ∈ merge_sort str_le (elements (list_to_set Y : gset string)) ↔ c ∈ Y.
Proof.
  split.
  - rewrite merge_sort_Permutation. apply NoDup_elements.
  - intros c. by rewrite merge_sort_Permutation, elem_of_elements,
      elem_of_list_to_set.
Qed.

Lemma sum_Q_probabilities (classes : list string) extent Y :
  (sum_Q ((λ class_, class_probability class_ extent Y) <$> classes)
   == inject_Z (Z.of_nat (sum_list ((λ c, occurrences c extent Y) <$> classes)))
      / inject_Z (Z.of_nat (length extent)))%Q.
Proof.
  induction classes as [|c classes IH]; csimpl.
  - unfold Qdiv. by rewrite Qmult_0_l.
  - unfold sum_Q in *. simpl. rewrite IH. unfold class_probability, Qdiv.
    rewrite <- Qmult_plus_distr_l, <- inject_Z_plus, <- Nat2Z.inj_add. done.
Qed.

Lemma probabilities_sum_to_one (classes : list string) extent Y :
  extent ≠ [] →
  NoDup classes →
  (∀ y, y ∈ Y → y ∈ classes) →
  Forall (λ g, g < length Y) extent →
  (sum_Q ((λ class_, class_probability class_ extent Y) <$> classes) == 1)%Q.
Proof.
  intros Hne Hnd Hcl Hall.
  rewrite sum_Q_probabilities, occurrences_total by done.
  unfold Qdiv. apply Qmult_inv_r.
  destruct extent as [|g extent]; [done|]. simpl length.
  rewrite Nat2Z.inj_succ. unfold Qeq. simpl. lia.
Qed.

(** What [calc_concept_prediction_metrics] returns for a concept with a
    non-empty extent of valid object indices. *)
Lemma calc_concept_prediction_metrics_Ok (self : state) (c_i : nat)
    (c : Concept) Y :
  _lattice self !! c_i = Some c →
  extent_i c ≠ [] →
  Forall (λ g, g < length Y) (extent_i c) →
  ∃ classes m,
    let probs := (λ class_, class_probability class_ (extent_i c) Y) <$> classes in
    classes = merge_sort str_le (elements (list_to_set Y : gset string)) ∧
    is_max_Q m probs ∧
    calc_concept_prediction_metrics self c_i Y
    = Ok ({[ "class_probabilities" := VList (VNum <$> probs);
             "most_probable_class" :=
               single_or_tied
                 (filter (λ class_, (class_probability class_ (extent_i c) Y == m)%Q)
                         classes);
             "maximum_class_probability" := VNum m ]}, classes).
Proof.
  intros Hc Hne Hall. unfold calc_concept_prediction_metrics.
  apply getitem_Ok in Hc. rewrite Hc, bind_Ok.
  set (classes := merge_sort str_le (elements (list_to_set Y : gset string))).
  assert (0 < length (extent_i c)) as Hpos.
  { destruct (extent_i c); [done|simpl; lia]. }
  rewrite bool_decide_eq_true_2 by done.
  rewrite (class_probabilities_Ok classes) by done. rewrite bind_Ok.
  assert (classes ≠ []) as Hcl.
  { destruct (extent_i c) as [|g ?] eqn:E; [done|].
    apply Forall_cons in Hall as [[y Hy]%lookup_lt_is_Some_2 _].
    apply list_elem_of_lookup_2, (proj2 (observed_classes Y)) in Hy.
    fold classes in Hy. intros Heq. rewrite Heq in Hy. by apply elem_of_nil in Hy. }
  destruct (pyval_max_nums
              ((λ class_, class_probability class_ (extent_i c) Y) <$> classes))
    as (m & Hm & Hmax).
  { by destruct classes. }
  rewrite Hm, bind_Ok. exists classes, m. simpl. split_and!; [done|done|].
  by rewrite classes_reaching_at, classes_at_fmap.
Qed.

End classifier.

(** ** Claims about the classifier *)

(** The tie scenario of the specification. *)
Example scenario_classifier_tie :
  DecisionLatticeClassifier.fit tie_unfit [tie_concept] tie_Y = Ok tie_fitted.
Proof. by vm_compute. Qed.

Example scenario_classifier_tie_predict :
  DecisionLatticeClassifier.predict tie_fitted [[0]] 1
  = Ok [VList [VStr "A"; VStr "B"]].
Proof. by vm_compute. Qed.

(** ** What [fit] stores *)

Lemma merge_measures_lookup (metrics : gmap string pyval) (c : Concept)
    (key : string) :
  measures c !! key = None →
  measures (merge_measures metrics c) !! key = metrics !! key.
Proof. intros Hc. simpl. by rewrite lookup_union_r. Qed.

Lemma merge_measures_extent (metrics : gmap string pyval) (c : Concept) :
  extent_i (merge_measures metrics c) = extent_i c.
Proof. done. Qed.

Section classifier_fit.
Import DecisionLatticeClassifier.

(** The metrics of a concept depend on the lattice through the extent of
    that concept only. *)
Lemma calc_depends_on_extent (s1 s2 : state) (c_i : nat) (Y : list string) :
  extent_i <$> (_lattice s1 !! c_i) = extent_i <$> (_lattice s2 !! c_i) →
  calc_concept_prediction_metrics s1 c_i Y = calc_concept_prediction_metrics s2 c_i Y.
Proof.
  unfold calc_concept_prediction_metrics, getitem. intros H.
  destruct (_lattice s1 !! c_i) as [c1|], (_lattice s2 !! c_i) as [c2|];
    try done.
  injection H as H. rewrite !bind_Ok. by rewrite H.
Qed.

Lemma fit_loop_spec (s s' : state) (c_is : list nat) (Y : list string) :
  NoDup c_is →
  fit_loop s c_is Y = Ok s' →
  ∀ i c, _lattice s !! i = Some c →
    (i ∈ c_is →
     ∃ mc, calc_concept_prediction_metrics s i Y = Ok mc ∧
           _lattice s' !! i = Some (merge_measures mc.1 c)) ∧
    (i ∉ c_is → _lattice s' !! i = Some c).
Proof.
  intros Hnd. revert s. induction Hnd as [|j rest Hj Hnd IH]; intros s; simpl.
  - intros [= <-] i c Hc. split; [by intros ?%elem_of_nil|done].
  - destruct (calc_concept_prediction_metrics s j Y) as [mc|] eqn:Hcalc; [|done].
    rewrite bind_Ok.
    destruct (getitem (_lattice s) j) as [cj|] eqn:Hcj; [|done].
    rewrite bind_Ok. apply getitem_Ok in Hcj.
    intros Hloop i c Hc. specialize (IH _ Hloop).
    destruct (decide (i = j)) as [->|Hne].
    + assert (cj = c) as -> by congruence.
      split; [|intros Hn; exfalso; apply Hn; left].
      intros _. exists mc. split; [done|].
      apply (IH j (merge_measures mc.1 c)); [|done]. simpl.
      apply list_lookup_insert_eq. by eapply lookup_lt_Some.
    + assert (<[j := merge_measures mc.1 cj]> (_lattice s) !! i = Some c) as Hi.
      { by rewrite list_lookup_insert_ne. }
      destruct (IH i c Hi) as [Hin Hout]. split.
      * intros [?|Hin']%elem_of_cons; [done|].
        destruct (Hin Hin') as (mc' & Hcalc' & Hs'). exists mc'. split; [|done].
        rewrite <- Hcalc'. apply calc_depends_on_extent. simpl. by rewrite Hi, Hc.
      * intros Hn. apply Hout. intros ?. apply Hn. by right.
Qed.

(** After [fit], every concept of the built lattice carries its own
    measures merged with the metrics computed for it. *)
Lemma fit_stores_metrics (self fitted : state) (built : list Concept)
    (Y : list string) (c_i : nat) (c : Concept) :
  fit self built Y = Ok fitted →
  built !! c_i = Some c →
  ∃ mc, calc_concept_prediction_metrics (mkState built (_class_names self)) c_i Y
        = Ok mc ∧
        _lattice fitted !! c_i = Some (merge_measures mc.1 c).
Proof.
  intros Hfit Hc. unfold fit in Hfit.
  apply (fit_loop_spec _ _ _ _ (NoDup_seq 0 (length built)) Hfit c_i c Hc).
  apply elem_of_seq. split; [lia|]. simpl. by eapply lookup_lt_Some.
Qed.

(** Transposition commutes with mapping over the entries. *)
Lemma zip_with_cons_fmap {A B} (f : A → B) (r : list A) (cols : list (list A)) :
  zip_with cons (f <$> r) ((λ col : list A, f <$> col) <$> cols) = (λ col : list A, f <$> col) <$> zip_with cons r cols.
Proof.
  revert cols. induction r as [|x r IH]; intros [|col cols]; try done.
  csimpl. by rewrite IH.
Qed.

Lemma zip_star_fmap {A B} (f : A → B) (rows : list (list A)) :
  zip_star ((λ row : list A, f <$> row) <$> rows)
  = (λ col : list A, f <$> col) <$> zip_star rows.
Proof.
  induction rows as [|r rows IH]; [done|].
  destruct rows as [|r' rows].
  - simpl. rewrite <- !list_fmap_compose. done.
  - change (zip_star ((λ row : list A, f <$> row) <$> r :: r' :: rows))
      with (zip_with cons (f <$> r)
              (zip_star ((λ row : list A, f <$> row) <$> r' :: rows))).
    rewrite IH. apply zip_with_cons_fmap.
Qed.

Lemma zip_star_columns {A} (rows : list (list A)) :
  Forall (λ col, col ≠ []) (zip_star rows).
Proof.
  induction rows as [|r rows IH]; [constructor|].
  destruct rows as [|r' rows].
  - simpl. apply Forall_fmap, Forall_true. done.
  - change (zip_star (r :: r' :: rows))
      with (zip_with cons r (zip_star (r' :: rows))).
    clear IH. generalize (zip_star (r' :: rows)). clear.
    induction r as [|x r IH]; intros [|col cols]; simpl; constructor; [done|].
    apply IH.
Qed.

(** When every traced concept holds a sequence of numbers under
    ["class_probabilities"], the averaged vector is a sequence of
    numbers. *)
Lemma average_concepts_class_probabilities_Ok (self : state)
    (concepts_i : list nat) (rows : list (list Q)) :
  Forall2 (λ c_i row, ∃ c, _lattice self !! c_i = Some c ∧
             measures c !! "class_probabilities" = Some (VList (VNum <$> row)))
    concepts_i rows →
  ∃ probs, average_concepts_class_probabilities self concepts_i
           = Ok (VNum <$> probs) ∧
           Forall2 (λ col p, (p == mean col)%Q) (zip_star rows) probs.
Proof.
  intros Hrows. unfold average_concepts_class_probabilities.
  assert (comprehension (λ c_i, c ← getitem (_lattice self) c_i;
            dict_getitem (measures c) "class_probabilities") concepts_i
          = Ok ((λ row, VList (VNum <$> row)) <$> rows)) as ->.
  { apply comprehension_of_Forall2, Forall2_fmap_r.
    eapply Forall2_impl; [exact Hrows|]. simpl.
    intros c_i row (c & Hc & Hm). apply getitem_Ok in Hc. rewrite Hc, bind_Ok.
    unfold dict_getitem. by rewrite Hm. }
  rewrite bind_Ok.
  assert (comprehension pyval_iter ((λ row, VList (VNum <$> row)) <$> rows)
          = Ok ((λ row : list Q, VNum <$> row) <$> rows)) as ->.
  { apply comprehension_of_Forall2. rewrite Forall2_fmap. by apply Forall_Forall2_diag, Forall_true. }
  rewrite bind_Ok, zip_star_fmap.
  pose proof (zip_star_columns rows) as Hcols.
  induction Hcols as [|col cols Hcol _ (probs & IH & Hmeans)].
  - by exists [].
  - csimpl. rewrite length_fmap.
    assert (0 < length col) as Hpos by (destruct col; [done|simpl; lia]).
    rewrite bool_decide_eq_true_2 by done.
    destruct (pyval_sum_nums col) as (s & -> & Hs). rewrite bind_Ok. simpl.
    rewrite bool_decide_eq_false_2 by lia. simpl.
    rewrite IH. simpl. exists ((s / inject_Z (Z.of_nat (length col)))%Q :: probs).
    split; [done|]. constructor; [|done]. unfold mean. by rewrite Hs.
Qed.

End classifier_fit.

Section regressor_fit.
Import DecisionLatticeRegressor.

Lemma regressor_calc_depends_on_extent (l1 l2 : list Concept) (c_i : nat)
    (Y : list Q) :
  extent_i <$> (l1 !! c_i) = extent_i <$> (l2 !! c_i) →
  calc_concept_prediction_metrics l1 c_i Y = calc_concept_prediction_metrics l2 c_i Y.
Proof.
  unfold calc_concept_prediction_metrics, getitem. intros H.
  destruct (l1 !! c_i) as [c1|], (l2 !! c_i) as [c2|]; try done.
  injection H as H. rewrite !bind_Ok. by rewrite H.
Qed.

Lemma regressor_fit_loop_spec (l l' : list Concept) (c_is : list nat) (Y : list Q) :
  NoDup c_is →
  fit_loop l c_is Y = Ok l' →
  ∀ i c, l !! i = Some c →
    (i ∈ c_is →
     ∃ metrics, calc_concept_prediction_metrics l i Y = Ok metrics ∧
                l' !! i = Some (merge_measures metrics c)) ∧
    (i ∉ c_is → l' !! i = Some c).
Proof.
  intros Hnd. revert l. induction Hnd as [|j rest Hj Hnd IH]; intros l; simpl.
  - intros [= <-] i c Hc. split; [by intros ?%elem_of_nil|done].
  - destruct (calc_concept_prediction_metrics l j Y) as [metrics|] eqn:Hcalc; [|done].
    rewrite bind_Ok.
    destruct (getitem l j) as [cj|] eqn:Hcj; [|done].
    rewrite bind_Ok. apply getitem_Ok in Hcj.
    intros Hloop i c Hc. specialize (IH _ Hloop).
    destruct (decide (i = j)) as [->|Hne].
    + assert (cj = c) as -> by congruence.
      split; [|intros Hn; exfalso; apply Hn; left].
      intros _. exists metrics. split; [done|].
      apply (IH j (merge_measures metrics c)); [|done].
      apply list_lookup_insert_eq. by eapply lookup_lt_Some.
    + assert (<[j := merge_measures metrics cj]> l !! i = Some c) as Hi.
      { by rewrite list_lookup_insert_ne. }
      destruct (IH i c Hi) as [Hin Hout]. split.
      * intros [?|Hin']%elem_of_cons; [done|].
        destruct (Hin Hin') as (m' & Hcalc' & Hs'). exists m'. split; [|done].
        rewrite <- Hcalc'. apply regressor_calc_depends_on_extent.
        by rewrite Hi, Hc.
      * intros Hn. apply Hout. intros ?. apply Hn. by right.
Qed.

(** After [fit], every concept holds a value under ["mean_y"]: [None]
    for an empty extent, unless the builder had already put a value
    there. *)
Lemma regressor_fit_stores_metrics (built fitted : list Concept) (Y : list Q)
    (c_i : nat) (c : Concept) :
  fit built Y = Ok fitted →
  built !! c_i = Some c →
  ∃ metrics, calc_concept_prediction_metrics built c_i Y = Ok metrics ∧
             fitted !! c_i = Some (merge_measures metrics c) ∧
             (extent_i c = [] → metrics !! "mean_y" = Some VNone).
Proof.
  intros Hfit Hc. unfold fit in Hfit.
  destruct (regressor_fit_loop_spec _ _ _ _ (NoDup_seq 0 (length built)) Hfit c_i c Hc)
    as [Hin _].
  destruct Hin as (metrics & Hcalc & Hl).
  { apply elem_of_seq. split; [lia|]. simpl. by eapply lookup_lt_Some. }
  exists metrics. split_and!; [done|done|].
  intros He. unfold calc_concept_prediction_metrics in Hcalc.
  apply getitem_Ok in Hc. rewrite Hc, bind_Ok, He in Hcalc. simpl in Hcalc.
  injection Hcalc as <-. apply lookup_singleton_eq.
Qed.

End regressor_fit.

(** * Further properties of the interval pattern structure *)

Section interval_more.
Import IntervalPS.
Implicit Types (self : AbstractPS) (d : interval) (g : nat).

Lemma ext_leb_NegInf_l (a : ext) : ext_leb NegInf a = true.
Proof. done. Qed.

Lemma ext_leb_PosInf_r (a : ext) : ext_leb a PosInf = true.
Proof. by destruct a. Qed.

Lemma extension_i_satisfies self d g :
  g ∈ extension_i self (Some d) ↔ satisfies self g d.
Proof. apply extension_i_elem. Qed.

Lemma bounds_interval_of (lo hi : ext) : bounds (interval_of lo hi) = (lo, hi).
Proof. unfold interval_of. by case_decide; subst. Qed.

(** The loop of [intention_i] ends on values that it has seen. *)
Lemma intention_loop_attained (data : list ext) (rest : list nat)
    (mn mx mn' mx' : ext) :
  intention_loop data rest mn mx = Ok (mn', mx') →
  (mn' = mn ∨ ∃ g, g ∈ rest ∧ data !! g = Some mn') ∧
  (mx' = mx ∨ ∃ g, g ∈ rest ∧ data !! g = Some mx').
Proof.
  revert mn mx. induction rest as [|g rest IH]; intros mn mx; simpl.
  - intros [= -> ->]. by split; left.
  - destruct (getitem data g) as [v|] eqn:Hv; [|done]. rewrite bind_Ok.
    apply getitem_Ok in Hv. intros [Hmn Hmx]%IH. split.
    + destruct Hmn as [->|(g' & Hg' & Hd)].
      * destruct (ext_ltb v mn); [right|by left]. exists g. split; [left|done].
      * right. exists g'. split; [by right|done].
    + destruct Hmx as [->|(g' & Hg' & Hd)].
      * destruct (ext_ltb mx v); [right|by left]. exists g. split; [left|done].
      * right. exists g'. split; [by right|done].
Qed.

(** What [intention_i] returns on a non-empty sequence of valid indices:
    the description between the least and the greatest selected value. *)
Lemma intention_i_spec self (S : list nat) :
  S ≠ [] →
  Forall (λ g, g < length (_data self)) S →
  ∃ lo hi,
    intention_i self S = Ok (Some (interval_of lo hi)) ∧
    (∃ g, g ∈ S ∧ _data self !! g = Some lo) ∧
    (∃ g, g ∈ S ∧ _data self !! g = Some hi) ∧
    (∀ g, g ∈ S → ∃ v, _data self !! g = Some v ∧ ext_le lo v ∧ ext_le v hi).
Proof.
  destruct S as [|g0 rest]; [done|]. intros _ [Hg0 Hrest]%Forall_cons.
  unfold intention_i.
  destruct (getitem_lt _ _ Hg0) as (v & -> & Hv). rewrite bind_Ok.
  destruct (intention_loop_Ok _ _ v v Hrest) as (mn & mx & Hloop).
  rewrite Hloop, bind_Ok. simpl.
  destruct (intention_loop_attained _ _ _ _ _ _ Hloop) as [Hamn Hamx].
  apply intention_loop_bounds in Hloop as (Hmn & Hmx & Hin).
  exists mn, mx. split_and!.
  - unfold interval_of, ext_eqb. by case_bool_decide; case_decide.
  - destruct Hamn as [->|(g & Hg & Hd)]; [exists g0|exists g];
      (split; [|done]); [left|by right].
  - destruct Hamx as [->|(g & Hg & Hd)]; [exists g0|exists g];
      (split; [|done]); [left|by right].
  - intros g [->|Hg]%elem_of_cons; [by exists v|by apply Hin].
Qed.

(** Every exception of [intention_i] is an [IndexError]. *)
Lemma intention_loop_out_of_range (data : list ext) (rest : list nat) (mn mx : ext) :
  Exists (λ g, length data ≤ g) rest →
  intention_loop data rest mn mx = Raise IndexError.
Proof.
  revert mn mx. induction rest as [|g rest IH]; intros mn mx Hex; simpl.
  - by apply Exists_nil in Hex.
  - unfold getitem. destruct (data !! g) as [v|] eqn:Hv; [|done]. simpl.
    apply IH. apply Exists_cons in Hex as [Hg|?]; [|done].
    apply lookup_lt_Some in Hv. lia.
Qed.

(** What [generators_to_description] does on a non-empty sequence. *)
Lemma generators_to_description_cases (generators : list interval) :
  generators ≠ [] →
  ∃ lo hi,
    is_maximum lo (bounds <$> generators).*1 ∧
    is_minimum hi (bounds <$> generators).*2 ∧
    generators_to_description generators
    = if ext_leb lo hi then Ok (interval_of lo hi) else Raise AssertionError.
Proof.
  intros Hne. unfold generators_to_description.
  rewrite generators_rows by done. simpl.
  destruct (py_max_spec (bounds <$> generators).*1) as (lo & -> & Hlo).
  { by destruct generators. }
  destruct (py_min_spec (bounds <$> generators).*2) as (hi & -> & Hhi).
  { by destruct generators. }
  exists lo, hi. split_and!; [done|done|]. simpl.
  destruct (ext_leb lo hi); simpl; [|done].
  unfold interval_of, ext_eqb. by case_bool_decide; case_decide.
Qed.

Lemma is_maximum_unique (l : list ext) (m m' : ext) :
  is_maximum m l → is_maximum m' l → m = m'.
Proof.
  intros [Hin Hle] [Hin' Hle']. apply ext_leb_antisym; [by apply Hle'|by apply Hle].
Qed.

Lemma is_minimum_unique (l : list ext) (m m' : ext) :
  is_minimum m l → is_minimum m' l → m = m'.
Proof.
  intros [Hin Hle] [Hin' Hle']. apply ext_leb_antisym; [by apply Hle|by apply Hle'].
Qed.

Lemma bounds_fst_elem (generators : list interval) (x : ext) :
  x ∈ (bounds <$> generators).*1 ↔ ∃ gen, gen ∈ generators ∧ (bounds gen).1 = x.
Proof.
  rewrite <- list_fmap_compose, list_elem_of_fmap. split.
  - intros (gen & -> & Hin). by exists gen.
  - intros (gen & Hin & <-). by exists gen.
Qed.

Lemma bounds_snd_elem (generators : list interval) (x : ext) :
  x ∈ (bounds <$> generators).*2 ↔ ∃ gen, gen ∈ generators ∧ (bounds gen).2 = x.
Proof.
  rewrite <- list_fmap_compose, list_elem_of_fmap. split.
  - intros (gen & -> & Hin). by exists gen.
  - intros (gen & Hin & <-). by exists gen.
Qed.

End interval_more.

(** X1. [extension_i] is monotone: a description contained in another
    one selects no object that the other one leaves out. *)
Theorem extension_i_monotone (self : AbstractPS) (d1 d2 : interval) :
  within d1 d2 →
  IntervalPS.extension_i self (Some d1) ⊆ IntervalPS.extension_i self (Some d2).
Proof.
  intros [Hlo Hhi] g. rewrite !extension_i_satisfies.
  intros (v & Hv & Hl & Hh). exists v. unfold ext_le in *. split_and!; [done|..].
  - by eapply ext_leb_trans.
  - by eapply ext_leb_trans.
Qed.

Lemma extension_i_monotone_witness :
  IntervalPS.extension_i ps_1_5_10 (Some (Point (Fin 5)))
  ⊆ IntervalPS.extension_i ps_1_5_10 (Some (Range (Fin 2) PosInf)).
Proof.
  apply (extension_i_monotone ps_1_5_10 (Point (Fin 5)) (Range (Fin 2) PosInf)).
  split; reflexivity.
Defined.

(** X2. On a non-empty sequence of valid indices [intention_i] returns
    the least description that all selected objects satisfy: they
    satisfy it, and it is contained in every description that they all
    satisfy. *)
Theorem intention_i_least (self : AbstractPS) (S : list nat) :
  S ≠ [] →
  Forall (λ g, g < length (_data self)) S →
  ∃ d, IntervalPS.intention_i self S = Ok (Some d) ∧
       (∀ g, g ∈ S → satisfies self g d) ∧
       (∀ d', (∀ g, g ∈ S → satisfies self g d') → within d d').
Proof.
  intros Hne Hall.
  destruct (intention_i_spec self S Hne Hall)
    as (lo & hi & Hi & (gl & Hgl & Hl) & (gh & Hgh & Hh) & Hin).
  exists (interval_of lo hi). split_and!; [done|..].
  - intros g Hg. unfold satisfies. rewrite bounds_interval_of. by apply Hin.
  - intros d' Hd'. unfold within. rewrite bounds_interval_of. simpl. split.
    + destruct (Hd' gl Hgl) as (v & Hv & Hlo & _). congruence.
    + destruct (Hd' gh Hgh) as (v & Hv & _ & Hhi). congruence.
Qed.

Lemma intention_i_least_witness :
  ∃ d, IntervalPS.intention_i ps_1_5_10 [1; 0; 1] = Ok (Some d) ∧
       (∀ g, g ∈ [1; 0; 1] → satisfies ps_1_5_10 g d) ∧
       (∀ d', (∀ g, g ∈ [1; 0; 1] → satisfies ps_1_5_10 g d') → within d d').
Proof.
  apply (intention_i_least ps_1_5_10 [1; 0; 1]).
  - discriminate.
  - repeat constructor; simpl; lia.
Defined.

(** X3. Closing twice changes nothing: the description that
    [intention_i] returns for a non-empty sequence of valid indices is
    returned again for the indices of its own [extension_i]. *)
Theorem closure_idempotent (self : AbstractPS) (S : list nat) :
  S ≠ [] →
  Forall (λ g, g < length (_data self)) S →
  ∃ d, IntervalPS.intention_i self S = Ok (Some d) ∧
       IntervalPS.intention_i self (IntervalPS.extension_i self (Some d))
       = Ok (Some d).
Proof.
  intros Hne Hall.
  destruct (intention_i_spec self S Hne Hall)
    as (lo & hi & Hi & (gl & Hgl & Hl) & (gh & Hgh & Hh) & Hin).
  exists (interval_of lo hi). split; [done|].
  set (E := IntervalPS.extension_i self (Some (interval_of lo hi))).
  assert (∀ g, g ∈ S → g ∈ E) as HSE.
  { intros g Hg. apply extension_i_satisfies. unfold satisfies.
    rewrite bounds_interval_of. by apply Hin. }
  assert (∀ g, g ∈ E → ∃ v, _data self !! g = Some v ∧ ext_le lo v ∧ ext_le v hi)
    as HE.
  { intros g Hg%extension_i_satisfies. unfold satisfies in Hg.
    by rewrite bounds_interval_of in Hg. }
  destruct (intention_i_spec self E)
    as (lo' & hi' & Hi' & (gl' & Hgl' & Hl') & (gh' & Hgh' & Hh') & Hin').
  { intros HE0. specialize (HSE gl Hgl). rewrite HE0 in HSE.
    by apply elem_of_nil in HSE. }
  { apply Forall_forall. intros g Hg. by eapply extension_i_lt. }
  rewrite Hi'. do 2 f_equal. unfold ext_le in *.
  assert (lo' = lo) as ->.
  { apply ext_leb_antisym.
    - destruct (Hin' gl (HSE gl Hgl)) as (v & Hv & Hlo & _). congruence.
    - destruct (HE gl' Hgl') as (v & Hv & Hlo & _). congruence. }
  assert (hi' = hi) as ->; [|done].
  apply ext_leb_antisym.
  - destruct (HE gh' Hgh') as (v & Hv & _ & Hhi). congruence.
  - destruct (Hin' gh (HSE gh Hgh)) as (v & Hv & _ & Hhi). congruence.
Qed.

Lemma closure_idempotent_witness :
  ∃ d, IntervalPS.intention_i ps_1_5_10 [0; 1] = Ok (Some d) ∧
       IntervalPS.intention_i ps_1_5_10 (IntervalPS.extension_i ps_1_5_10 (Some d))
       = Ok (Some d).
Proof.
  apply (closure_idempotent ps_1_5_10 [0; 1]).
  - discriminate.
  - repeat constructor; simpl; lia.
Defined.

(** X4. [intention_i] raises [IndexError] as soon as one of the given
    indices is not below the number of objects. *)
Theorem intention_i_index_error (self : AbstractPS) (S : list nat) :
  Exists (λ g, length (_data self) ≤ g) S →
  IntervalPS.intention_i self S = Raise IndexError.
Proof.
  destruct S as [|g0 rest]; [by intros ?%Exists_nil|].
  intros Hex. unfold IntervalPS.intention_i, getitem.
  destruct (_data self !! g0) as [v|] eqn:Hv; [|done]. rewrite bind_Ok.
  rewrite intention_loop_out_of_range; [done|].
  apply Exists_cons in Hex as [Hg|?]; [|done].
  apply lookup_lt_Some in Hv. lia.
Qed.

Lemma intention_i_index_error_witness :
  IntervalPS.intention_i ps_1_5_10 [0; 3] = Raise IndexError.
Proof.
  apply (intention_i_index_error ps_1_5_10 [0; 3]).
  apply Exists_cons_tl, Exists_cons_hd. simpl. lia.
Defined.

(** X5. [generators_to_description] intersects its generators: when it
    returns a description, an object is in the extension of that
    description exactly when it is in the extension of every generator;
    when it raises [AssertionError], no object is in the extension of
    every generator; and on a non-empty sequence it does one of the
    two. *)
Theorem generators_to_description_meet (self : AbstractPS)
    (generators : list interval) :
  generators ≠ [] →
  (∃ d, IntervalPS.generators_to_description generators = Ok d ∧
        ∀ g, g ∈ IntervalPS.extension_i self (Some d) ↔
             ∀ gen, gen ∈ generators → g ∈ IntervalPS.extension_i self (Some gen)) ∨
  (IntervalPS.generators_to_description generators = Raise AssertionError ∧
   ∀ g, ¬ ∀ gen, gen ∈ generators → g ∈ IntervalPS.extension_i self (Some gen)).
Proof.
  intros Hne.
  destruct (generators_to_description_cases generators Hne)
    as (lo & hi & [Hlo_in Hlo] & [Hhi_in Hhi] & ->).
  apply bounds_fst_elem in Hlo_in as (gl & Hgl & Hgl_lo).
  apply bounds_snd_elem in Hhi_in as (gh & Hgh & Hgh_hi).
  destruct (ext_leb lo hi) eqn:Hle; [left|right].
  - eexists. split; [done|]. intros g. rewrite extension_i_satisfies.
    unfold satisfies at 1. rewrite bounds_interval_of. simpl. split.
    + intros (v & Hv & Hl & Hh) gen Hgen. apply extension_i_satisfies.
      exists v. unfold ext_le in *. split_and!; [done|..].
      * eapply ext_leb_trans; [|exact Hl]. apply Hlo, bounds_fst_elem. by exists gen.
      * eapply ext_leb_trans; [exact Hh|]. apply Hhi, bounds_snd_elem. by exists gen.
    + intros Hall.
      destruct (proj1 (extension_i_satisfies _ _ _) (Hall gl Hgl)) as (v & Hv & Hl & _).
      destruct (proj1 (extension_i_satisfies _ _ _) (Hall gh Hgh)) as (v' & Hv' & _ & Hh).
      exists v. split_and!; [done|congruence|congruence].
  - split; [done|]. intros g Hall.
    destruct (proj1 (extension_i_satisfies _ _ _) (Hall gl Hgl)) as (v & Hv & Hl & _).
    destruct (proj1 (extension_i_satisfies _ _ _) (Hall gh Hgh)) as (v' & Hv' & _ & Hh).
    assert (v' = v) as -> by congruence. unfold ext_le in *.
    rewrite Hgl_lo in Hl. rewrite Hgh_hi in Hh.
    rewrite (ext_leb_trans _ _ _ Hl Hh) in Hle. done.
Qed.

Lemma generators_to_description_meet_witness :
  (∃ d, IntervalPS.generators_to_description [Range NegInf (Fin 7); Point (Fin 5)]
        = Ok d ∧
        ∀ g, g ∈ IntervalPS.extension_i ps_1_5_10 (Some d) ↔
             ∀ gen, gen ∈ [Range NegInf (Fin 7); Point (Fin 5)] →
                    g ∈ IntervalPS.extension_i ps_1_5_10 (Some gen)) ∨
  (IntervalPS.generators_to_description [Range NegInf (Fin 7); Point (Fin 5)]
   = Raise AssertionError ∧
   ∀ g, ¬ ∀ gen, gen ∈ [Range NegInf (Fin 7); Point (Fin 5)] →
                 g ∈ IntervalPS.extension_i ps_1_5_10 (Some gen)).
Proof.
  apply (generators_to_description_meet ps_1_5_10
           [Range NegInf (Fin 7); Point (Fin 5)]).
  discriminate.
Defined.

(** X6. The two generators of a description are relaxations of it whose
    intersection is the description: each contains it, and an object is
    in the extension of the description exactly when it is in the
    extension of both generators. *)
Theorem description_to_generators_relax (self : AbstractPS) (d : interval) :
  (∀ gen, gen ∈ IntervalPS.description_to_generators d → within d gen) ∧
  (∀ g, g ∈ IntervalPS.extension_i self (Some d) ↔
        ∀ gen, gen ∈ IntervalPS.description_to_generators d →
               g ∈ IntervalPS.extension_i self (Some gen)).
Proof.
  assert (∀ gen, gen ∈ IntervalPS.description_to_generators d ↔
            gen = Range NegInf (IntervalPS.bounds d).2 ∨
            gen = Range (IntervalPS.bounds d).1 PosInf) as Hgens.
  { intros gen. unfold IntervalPS.description_to_generators. cbv zeta.
    by rewrite elem_of_cons, list_elem_of_singleton. }
  split.
  - intros gen [->| ->]%Hgens; split; simpl; unfold ext_le;
      auto using ext_leb_refl, ext_leb_NegInf_l, ext_leb_PosInf_r.
  - intros g. split.
    + intros (v & Hv & Hl & Hh)%extension_i_satisfies gen [->| ->]%Hgens;
        apply extension_i_satisfies; exists v; simpl; unfold ext_le;
        auto using ext_leb_NegInf_l, ext_leb_PosInf_r.
    + intros Hall. apply extension_i_satisfies.
      destruct (proj1 (extension_i_satisfies _ _ _)
                  (Hall (Range NegInf (IntervalPS.bounds d).2)
                        (proj2 (Hgens _) (or_introl eq_refl))))
        as (v & Hv & _ & Hh).
      destruct (proj1 (extension_i_satisfies _ _ _)
                  (Hall (Range (IntervalPS.bounds d).1 PosInf)
                        (proj2 (Hgens _) (or_intror eq_refl))))
        as (v' & Hv' & Hl & _).
      exists v. split_and!; [done| |done]. simpl in *. congruence.
Qed.

(** X7. The result of [generators_to_description], value or exception,
    does not depend on the order of the generators. *)
Theorem generators_to_description_permutation (generators generators' : list interval) :
  generators ≡ₚ generators' →
  IntervalPS.generators_to_description generators
  = IntervalPS.generators_to_description generators'.
Proof.
  intros Hp. destruct generators as [|gen generators].
  { by apply Permutation_nil_l in Hp as ->. }
  assert (generators' ≠ []) as Hne'.
  { intros ->. by apply Permutation_nil_r in Hp. }
  destruct (generators_to_description_cases (gen :: generators))
    as (lo & hi & Hlo & Hhi & ->); [done|].
  destruct (generators_to_description_cases generators' Hne')
    as (lo' & hi' & Hlo' & Hhi' & ->).
  assert (lo' = lo) as ->.
  { eapply is_maximum_unique; [exact Hlo'|].
    destruct Hlo as [Hin Hle]. split.
    - by rewrite <- Hp.
    - intros x Hx. apply Hle. by rewrite Hp. }
  assert (hi' = hi) as ->; [|done].
  eapply is_minimum_unique; [exact Hhi'|].
  destruct Hhi as [Hin Hle]. split.
  - by rewrite <- Hp.
  - intros x Hx. apply Hle. by rewrite Hp.
Qed.

Lemma generators_to_description_permutation_witness :
  IntervalPS.generators_to_description [Point (Fin 3); Range NegInf (Fin 7)]
  = IntervalPS.generators_to_description [Range NegInf (Fin 7); Point (Fin 3)].
Proof.
  apply (generators_to_description_permutation
           [Point (Fin 3); Range NegInf (Fin 7)]
           [Range NegInf (Fin 7); Point (Fin 3)]).
  apply Permutation_swap.
Defined.

(** X8. Indexing a pattern structure with the indices of an extension
    raises nothing and returns, in order, the raw values of the selected
    objects, each within the bounds of the description. *)
Theorem getitem_of_extension (self : AbstractPS) (d : interval) :
  ∃ values,
    AbstractPSMethods.__getitem__ self (inl (IntervalPS.extension_i self (Some d)))
    = Ok (inl values) ∧
    Forall2 (λ g v, _data self !! g = Some v)
            (IntervalPS.extension_i self (Some d)) values ∧
    Forall (λ v, ext_le (IntervalPS.bounds d).1 v ∧ ext_le v (IntervalPS.bounds d).2)
           values.
Proof.
  destruct (comprehension_getitem (_data self)
              (IntervalPS.extension_i self (Some d))) as (values & Hc & Hf).
  { apply Forall_forall. intros g Hg. by eapply extension_i_lt. }
  exists values. unfold AbstractPSMethods.__getitem__. rewrite Hc, bind_Ok.
  split_and!; [done|done|].
  apply Forall_forall. intros v Hv. apply list_elem_of_lookup in Hv as [i Hi].
  destruct (Forall2_lookup_r _ _ _ _ _ Hf Hi) as (g & Hg & Hgv).
  apply list_elem_of_lookup_2, extension_i_satisfies in Hg as (v' & Hv' & Hb).
  by assert (v' = v) as -> by congruence.
Qed.

(** * Further properties of the multi-valued context *)

(** ** Sorted index sequences and dictionaries in insertion order *)

Lemma sorted_indices_elem (s : gset nat) (x : nat) :
  x ∈ sorted_indices s ↔ x ∈ s.
Proof.
  unfold sorted_indices. by rewrite merge_sort_Permutation, elem_of_elements.
Qed.

Lemma sorted_indices_sorted (s : gset nat) : StronglySorted lt (sorted_indices s).
Proof.
  assert (NoDup (sorted_indices s)) as Hnd.
  { unfold sorted_indices. rewrite merge_sort_Permutation. apply NoDup_elements. }
  assert (StronglySorted le (sorted_indices s)) as Hs.
  { apply StronglySorted_merge_sort; apply _. }
  induction Hs as [|x l Hl IH Hx]; [constructor|].
  apply NoDup_cons in Hnd as [Hnx Hnd]. constructor; [by apply IH|].
  rewrite Forall_forall in Hx |- *. intros y Hy.
  specialize (Hx y Hy). assert (x ≠ y) by (by intros ->). lia.
Qed.

Lemma Forall2_impl_elem {A B} (P Q : A → B → Prop) (l : list A) (k : list B) :
  Forall2 P l k → (∀ x y, x ∈ l → P x y → Q x y) → Forall2 Q l k.
Proof.
  induction 1 as [|x y l k Hxy _ IH]; intros HPQ; constructor.
  - apply HPQ; [left|done].
  - apply IH. intros x' y' Hx'. apply HPQ. by right.
Qed.

(** Looking up a strictly ascending sequence of indices yields a
    subsequence. *)
Lemma lookup_ascending_sublist {A} (names : list A) (k : nat) (l : list nat)
    (r : list A) :
  StronglySorted lt l →
  Forall (λ g, k ≤ g) l →
  Forall2 (λ g x, names !! (g - k) = Some x) l r →
  r `sublist_of` names.
Proof.
  revert k l r. induction names as [|a names IH]; intros k l r Hs Hk Hf.
  - destruct Hf as [|g x l r Hgx _]; [constructor|done].
  - destruct Hf as [|g x l r Hgx Hf]; [apply sublist_nil_l|].
    apply StronglySorted_inv in Hs as [Hs Hg].
    apply Forall_cons in Hk as [Hkg Hk].
    destruct (decide (g = k)) as [->|Hne].
    + rewrite Nat.sub_diag in Hgx. injection Hgx as ->.
      apply sublist_skip. apply (IH (S k) l r); [done|..].
      * eapply Forall_impl; [exact Hg|]. simpl. lia.
      * rewrite Forall_forall in Hg.
        eapply Forall2_impl_elem; [exact Hf|]. intros g x' Hgl Hgx'.
        specialize (Hg g Hgl).
        cbv beta in Hgx'.
        replace (g - k) with (S (g - S k)) in Hgx' by lia. exact Hgx'.
    + apply sublist_cons. apply (IH (S k) (g :: l) (x :: r)).
      * by constructor.
      * constructor; [lia|]. eapply Forall_impl; [exact Hg|]. simpl. lia.
      * constructor.
        -- replace (g - k) with (S (g - S k)) in Hgx by lia. exact Hgx.
        -- rewrite Forall_forall in Hg.
           eapply Forall2_impl_elem; [exact Hf|]. intros g' x' Hgl Hgx'.
           specialize (Hg g' Hgl).
           cbv beta in Hgx'.
           replace (g' - k) with (S (g' - S k)) in Hgx' by lia. exact Hgx'.
Qed.

Lemma dict_setitem_keys `{EqDecision K} {V} (k : K) (v : V) (d : list (K * V))
    (k' : K) :
  k' ∈ (dict_setitem k v d).*1 ↔ k' = k ∨ k' ∈ d.*1.
Proof.
  induction d as [|[k0 v0] d IH]; simpl.
  - rewrite list_elem_of_singleton. split; [by left|].
    by intros [?|?%elem_of_nil].
  - destruct (decide (k = k0)) as [->|Hne]; csimpl.
    + rewrite !elem_of_cons. tauto.
    + rewrite !elem_of_cons, IH. tauto.
Qed.

Lemma dict_setitem_fresh `{EqDecision K} {V} (k : K) (v : V) (d : list (K * V)) :
  k ∉ d.*1 → dict_setitem k v d = d ++ [(k, v)].
Proof.
  induction d as [|[k0 v0] d IH]; simpl; [done|]. csimpl.
  intros Hk. apply not_elem_of_cons in Hk as [Hne Hk].
  rewrite decide_False by done. by rewrite IH.
Qed.

Lemma dict_display_foldl `{EqDecision K} {V} (acc items : list (K * V)) :
  NoDup (acc.*1 ++ items.*1) →
  foldl (λ d kv, dict_setitem kv.1 kv.2 d) acc items = acc ++ items.
Proof.
  revert acc. induction items as [|[k v] items IH]; intros acc Hnd; simpl.
  - by rewrite app_nil_r.
  - csimpl in Hnd. rewrite dict_setitem_fresh.
    + rewrite IH; [by rewrite <- (assoc_L (++))|].
      rewrite fmap_app. csimpl. by rewrite <- (assoc_L (++)).
    + apply NoDup_app in Hnd as (_ & Hd & _). intros Hk. apply (Hd k Hk). left.
Qed.

(** A dictionary display without repeated keys keeps its items as they
    are written. *)
Lemma dict_display_NoDup `{EqDecision K} {V} (items : list (K * V)) :
  NoDup items.*1 → dict_display items = items.
Proof. intros Hnd. unfold dict_display. by rewrite dict_display_foldl. Qed.

(** With pairwise distinct items, [index_map] sends every item to its
    position. *)
Lemma index_map_NoDup `{Countable K} (l : list K) (i : nat) (k : K) :
  NoDup l → l !! i = Some k → index_map l !! k = Some i.
Proof.
  intros Hnd Hi.
  destruct (index_map_elem l k) as (j & Hj & Hlj).
  { by eapply list_elem_of_lookup_2. }
  by rewrite (NoDup_lookup _ _ _ _ Hnd Hi Hlj).
Qed.

(** ** Extension over any number of descriptions *)

Section extension_general.
Implicit Types (K : MVContext) (pss : list AbstractPS)
  (items : list (nat * option interval)).

Lemma extension_loop_spec pss items (extent : gset nat) :
  Forall (λ id, id.1 < length pss) items →
  ∃ s, MVContext.extension_loop pss items extent = Ok s ∧
       ∀ g, g ∈ s ↔
            g ∈ extent ∧
            ∀ i d, (i, d) ∈ items →
                   ∃ ps, pss !! i = Some ps ∧ g ∈ IntervalPS.extension_i ps d.
Proof.
  intros Hall. revert extent.
  induction Hall as [|[i d] items Hi _ IH]; intros extent; simpl.
  - exists extent. split; [done|]. intros g. split; [|tauto].
    intros Hg. split; [done|]. by intros i d ?%elem_of_nil.
  - destruct (getitem_lt pss i Hi) as (ps & -> & Hps). rewrite bind_Ok.
    destruct (IH (extent ∩ list_to_set (IntervalPS.extension_i ps d)))
      as (s & -> & Hs).
    exists s. split; [done|]. intros g. rewrite Hs.
    rewrite elem_of_intersection, elem_of_list_to_set. split.
    + intros [[Hg Hd] Hrest]. split; [done|].
      intros i' d' [[= -> ->]|Hin]%elem_of_cons; [by exists ps|by apply Hrest].
    + intros [Hg Hall]. split_and!; [done|..].
      * destruct (Hall i d) as (ps' & Hps' & Hin); [left|]. congruence.
      * intros i' d' Hin. apply Hall. by right.
Qed.

Lemma extension_loop_index_error pss items (extent : gset nat) :
  Exists (λ id, length pss ≤ id.1) items →
  MVContext.extension_loop pss items extent = Raise IndexError.
Proof.
  revert extent. induction items as [|[i d] items IH]; intros extent Hex; simpl.
  - by apply Exists_nil in Hex.
  - unfold getitem. destruct (pss !! i) as [ps|] eqn:Hps; [|done]. simpl.
    apply IH. apply Exists_cons in Hex as [Hi|?]; [|done].
    apply lookup_lt_Some in Hps. simpl in Hi. lia.
Qed.

Lemma extension_i_spec K items :
  Forall (λ id, id.1 < length (_pattern_structures K)) items →
  ∃ e, MVContext.extension_i K items = Ok e ∧
       StronglySorted lt e ∧
       ∀ g, g ∈ e ↔
            g < _n_objects K ∧
            ∀ i d, (i, d) ∈ items →
                   ∃ ps, _pattern_structures K !! i = Some ps ∧
                         g ∈ IntervalPS.extension_i ps d.
Proof.
  intros Hall. unfold MVContext.extension_i.
  destruct (extension_loop_spec (_pattern_structures K) items
              (list_to_set (seq 0 (_n_objects K))) Hall) as (s & -> & Hs).
  rewrite bind_Ok. eexists. split_and!; [done|apply sorted_indices_sorted|].
  intros g. rewrite sorted_indices_elem, Hs, elem_of_list_to_set, elem_of_seq.
  split; intros [? ?]; (split; [lia|done]).
Qed.

Lemma descriptions_by_index_known (m : gmap string nat)
    (descriptions : list (string * option interval)) items :
  Forall (λ kd, is_Some (m !! kd.1)) descriptions →
  ∃ r, MVContext.descriptions_by_index m descriptions items = Ok r ∧
       ∀ i, i ∈ r.*1 → i ∈ items.*1 ∨ ∃ k, m !! k = Some i.
Proof.
  intros Hall. revert items.
  induction Hall as [|[k d] descriptions [i Hi] _ IH]; intros items; simpl.
  - exists items. split; [done|]. by left.
  - unfold dict_getitem. simpl in Hi. rewrite Hi, bind_Ok.
    destruct (IH (dict_setitem i d items)) as (r & -> & Hr).
    exists r. split; [done|]. intros j [Hj|Hj]%Hr; [|by right].
    apply dict_setitem_keys in Hj as [->|Hj]; [right; by exists k|by left].
Qed.

Lemma descriptions_by_index_unknown (m : gmap string nat)
    (descriptions : list (string * option interval)) items :
  Exists (λ kd, m !! kd.1 = None) descriptions →
  MVContext.descriptions_by_index m descriptions items = Raise KeyError.
Proof.
  revert items. induction descriptions as [|[k d] descriptions IH];
    intros items Hex; simpl.
  - by apply Exists_nil in Hex.
  - unfold dict_getitem. destruct (m !! k) as [i|] eqn:Hk; [|done]. simpl.
    apply IH. apply Exists_cons in Hex as [Hk'|?]; [|done]. simpl in Hk'. congruence.
Qed.

Lemma index_map_None `{Countable A} (l : list A) (k : A) :
  k ∉ l → index_map l !! k = None.
Proof.
  intros Hk. destruct (index_map l !! k) as [i|] eqn:Hi; [|done].
  apply index_map_Some in Hi. exfalso. apply Hk. by eapply list_elem_of_lookup_2.
Qed.

End extension_general.

(** ** Construction *)

(** The default names are the decimal numerals. *)
Example default_names_12 :
  MVContext.default_names 12
  = ["0"; "1"; "2"; "3"; "4"; "5"; "6"; "7"; "8"; "9"; "10"; "11"].
Proof. reflexivity. Qed.

(** X9. A context constructed without object names names its objects
    ["0"], ["1"], ... in order, and these names are pairwise distinct. *)
Theorem default_object_names (data : list (list ext))
    (pattern_types : option (list (string * ps_type)))
    (attribute_names : option (list string)) (description : option string)
    (K : MVContext) :
  MVContext.init data pattern_types None attribute_names description = Ok K →
  _object_names K = MVContext.default_names (length data) ∧
  length (_object_names K) = length data ∧
  NoDup (_object_names K).
Proof.
  unfold MVContext.init.
  destruct (getitem data 0) as [row|]; [|done]. rewrite bind_Ok. simpl.
  destruct (MVContext.set_attribute_names _ _) as [anames|]; [|done]. simpl.
  destruct (MVContext.assemble_pattern_structures _ _ _) as [pss|]; [|done].
  simpl. intros [= <-]. simpl. unfold MVContext.default_names. split_and!.
  - done.
  - by rewrite length_fmap, length_seq.
  - apply NoDup_fmap; [apply _|apply NoDup_seq].
Qed.

Lemma default_object_names_witness :
  _object_names
    (mkMVContext 2 2 ["0"; "1"] ["A"; "B"]
       [mkPS [Fin 1; Fin 5] "A"; mkPS [Fin 5; Fin 1] "B"] None)
  = MVContext.default_names (length data_2x2) ∧
  length (_object_names
    (mkMVContext 2 2 ["0"; "1"] ["A"; "B"]
       [mkPS [Fin 1; Fin 5] "A"; mkPS [Fin 5; Fin 1] "B"] None))
  = length data_2x2 ∧
  NoDup (_object_names
    (mkMVContext 2 2 ["0"; "1"] ["A"; "B"]
       [mkPS [Fin 1; Fin 5] "A"; mkPS [Fin 5; Fin 1] "B"] None)).
Proof.
  apply (default_object_names data_2x2 types_AB (Some ["A"; "B"]) None).
  vm_compute. reflexivity.
Defined.

(** X10. In a constructed context the pattern structures follow the
    entries of [pattern_types], one per entry and under its name; every
    attribute name has an entry; and each pattern structure holds, object
    by object, the column of [data] found at the position of its name
    among the attribute names. *)
Theorem init_pattern_structures (data : list (list ext))
    (pattern_types : option (list (string * ps_type)))
    (object_names attribute_names : option (list string))
    (description : option string) (K : MVContext) :
  MVContext.init data pattern_types object_names attribute_names description = Ok K →
  ∃ types,
    pattern_types = Some types ∧
    _name <$> _pattern_structures K = types.*1 ∧
    (∀ a, a ∈ _attribute_names K → a ∈ types.*1) ∧
    ∀ ps, ps ∈ _pattern_structures K →
      ∃ m_i, _attribute_names K !! m_i = Some (_name ps) ∧
             Forall2 (λ row v, row !! m_i = Some v) data (_data ps).
Proof.
  unfold MVContext.init.
  destruct (getitem data 0) as [row|]; [|done]. rewrite bind_Ok. simpl.
  destruct (MVContext.set_object_names _ _) as [onames|]; [|done]. simpl.
  destruct (MVContext.set_attribute_names _ _) as [anames|]; [|done]. simpl.
  destruct (MVContext.assemble_pattern_structures _ _ _) as [pss|] eqn:Hp; [|done].
  simpl. intros [= <-]. simpl.
  unfold MVContext.assemble_pattern_structures in Hp.
  destruct (py_assert _) as [u|] eqn:Hassert; [|done]. rewrite bind_Ok in Hp.
  destruct pattern_types as [types|]; [|done].
  exists types. apply comprehension_Forall2 in Hp.
  assert (Forall2 (λ item ps,
            _name ps = item.1 ∧
            ∃ m_i, anames !! m_i = Some item.1 ∧
                   Forall2 (λ row v, row !! m_i = Some v) data (_data ps))
            types pss) as Hitems.
  { eapply Forall2_impl; [exact Hp|]. intros [name t] ps. simpl.
    unfold dict_getitem.
    destruct (index_map anames !! name) as [m_i|] eqn:Hm; [|done].
    rewrite bind_Ok.
    destruct (comprehension _ data) as [ps_data|] eqn:Hd; [|done].
    rewrite bind_Ok. intros [= <-]. apply index_map_Some in Hm.
    apply comprehension_Forall2 in Hd. destruct t; simpl. split; [done|].
    exists m_i. split; [done|].
    eapply Forall2_impl; [exact Hd|]. intros r v. by rewrite getitem_Ok. }
  split_and!; [done|..].
  - clear Hp Hassert. induction Hitems as [|item ps ? ? [Hn _] _ IH]; [done|].
    rewrite !fmap_cons. by f_equal.
  - unfold py_assert in Hassert. case_bool_decide as Hsize; [|done].
    apply size_empty_iff in Hsize. intros a Ha.
    apply (elem_of_list_to_set (C := gset string)).
    apply dec_stable. intros Hna.
    apply (not_elem_of_empty (C := gset string) a). rewrite <- Hsize.
    apply elem_of_difference. split; [by apply elem_of_list_to_set|done].
  - intros ps Hps. apply list_elem_of_lookup in Hps as [i Hi].
    destruct (Forall2_lookup_r _ _ _ _ _ Hitems Hi)
      as (item & _ & Hn & m_i & Hm & Hcol).
    exists m_i. by rewrite Hn.
Qed.

Lemma init_pattern_structures_witness :
  ∃ types,
    types_AB = Some types ∧
    _name <$> _pattern_structures context_g1_g2 = types.*1 ∧
    (∀ a, a ∈ _attribute_names context_g1_g2 → a ∈ types.*1) ∧
    ∀ ps, ps ∈ _pattern_structures context_g1_g2 →
      ∃ m_i, _attribute_names context_g1_g2 !! m_i = Some (_name ps) ∧
             Forall2 (λ row v, row !! m_i = Some v) data_2x2 (_data ps).
Proof.
  apply (init_pattern_structures data_2x2 types_AB (Some ["g1"; "g2"])
           (Some ["A"; "B"]) None context_g1_g2).
  vm_compute. reflexivity.
Defined.

(** X11. Construction raises [AssertionError] when an attribute name has
    no entry in [pattern_types], whatever the other entries are. *)
Theorem init_missing_pattern_type (row : list ext) (data : list (list ext))
    (pattern_types : option (list (string * ps_type)))
    (object_names attribute_names : list string)
    (description : option string) (a : string) :
  length object_names = S (length data) →
  length attribute_names = length row →
  a ∈ attribute_names →
  a ∉ (default [] pattern_types).*1 →
  MVContext.init (row :: data) pattern_types (Some object_names)
    (Some attribute_names) description = Raise AssertionError.
Proof.
  intros Hon Han Ha Hna. unfold MVContext.init. simpl.
  rewrite bool_decide_eq_true_2 by done. simpl.
  rewrite bool_decide_eq_true_2 by done. simpl.
  unfold MVContext.assemble_pattern_structures.
  rewrite bool_decide_eq_false_2; [done|].
  intros Hsize%size_empty_iff.
  apply (not_elem_of_empty (C := gset string) a). rewrite <- Hsize.
  apply elem_of_difference. split; [by apply elem_of_list_to_set|].
  destruct pattern_types as [types|]; simpl in *.
  - by rewrite elem_of_list_to_set.
  - apply not_elem_of_empty.
Qed.

Lemma init_missing_pattern_type_witness :
  MVContext.init ([Fin 1; Fin 5] :: [[Fin 5; Fin 1]])
    (Some [("A", IntervalPS_type)]) (Some ["g1"; "g2"]) (Some ["A"; "B"]) None
  = Raise AssertionError.
Proof.
  apply (init_missing_pattern_type [Fin 1; Fin 5] [[Fin 5; Fin 1]]
           (Some [("A", IntervalPS_type)]) ["g1"; "g2"] ["A"; "B"] None "B").
  - reflexivity.
  - reflexivity.
  - apply (bool_decide_unpack _). vm_compute. exact I.
  - apply (bool_decide_unpack _). vm_compute. exact I.
Defined.

(** ** Extension and intention *)

(** X12. For descriptions given by pattern-structure index,
    [extension_i] returns the strictly ascending sequence of the object
    indices that are in the extension of every given description for
    its pattern structure. *)
Theorem extension_i_conjunctive (K : MVContext)
    (descriptions_i : list (nat * option interval)) :
  Forall (λ id, id.1 < length (_pattern_structures K)) descriptions_i →
  ∃ e, MVContext.extension_i K descriptions_i = Ok e ∧
       StronglySorted lt e ∧
       ∀ g, g ∈ e ↔
            g < _n_objects K ∧
            ∀ i d, (i, d) ∈ descriptions_i →
                   ∃ ps, _pattern_structures K !! i = Some ps ∧
                         g ∈ IntervalPS.extension_i ps d.
Proof. apply extension_i_spec. Qed.

Lemma extension_i_conjunctive_witness :
  ∃ e, MVContext.extension_i context_g1_g2
         [(1, Some (Point (Fin 1))); (0, Some (Range (Fin 1) (Fin 5)))] = Ok e ∧
       StronglySorted lt e ∧
       ∀ g, g ∈ e ↔
            g < _n_objects context_g1_g2 ∧
            ∀ i d, (i, d) ∈ [(1, Some (Point (Fin 1)));
                             (0, Some (Range (Fin 1) (Fin 5)))] →
                   ∃ ps, _pattern_structures context_g1_g2 !! i = Some ps ∧
                         g ∈ IntervalPS.extension_i ps d.
Proof.
  apply (extension_i_conjunctive context_g1_g2
           [(1, Some (Point (Fin 1))); (0, Some (Range (Fin 1) (Fin 5)))]).
  repeat constructor; simpl; lia.
Defined.

(** X13. [extension_i] raises [IndexError] when a description is given
    for an index that is not below the number of pattern structures. *)
Theorem extension_i_index_error (K : MVContext)
    (descriptions_i : list (nat * option interval)) :
  Exists (λ id, length (_pattern_structures K) ≤ id.1) descriptions_i →
  MVContext.extension_i K descriptions_i = Raise IndexError.
Proof.
  intros Hex. unfold MVContext.extension_i.
  by rewrite extension_loop_index_error.
Qed.

Lemma extension_i_index_error_witness :
  MVContext.extension_i context_g1_g2 [(0, None); (2, None)] = Raise IndexError.
Proof.
  apply (extension_i_index_error context_g1_g2 [(0, None); (2, None)]).
  apply Exists_cons_tl, Exists_cons_hd. simpl. lia.
Defined.

Section context_closure.
Implicit Types (K : MVContext) (objects : list string).

Lemma comprehension_Ok_all {A B} (f : A → result B) (l : list A) :
  (∀ a, a ∈ l → ∃ b, f a = Ok b) → ∃ r, comprehension f l = Ok r.
Proof.
  induction l as [|a l IH]; intros Hall; simpl; [by eexists|].
  destruct (Hall a) as (b & ->); [left|]. rewrite bind_Ok.
  destruct IH as (r & ->); [|by eexists].
  intros a' Ha'. apply Hall. by right.
Qed.

(** The pattern-structure part of [intention]: either no description,
    for no indices, or a description that all the indices satisfy. *)
Lemma intention_i_covers (ps : AbstractPS) (object_indexes : list nat) :
  Forall (λ g, g < length (_data ps)) object_indexes →
  ∃ d, IntervalPS.intention_i ps object_indexes = Ok d ∧
       ∀ g, g ∈ object_indexes → g ∈ IntervalPS.extension_i ps d.
Proof.
  intros Hall. destruct object_indexes as [|g0 rest].
  - exists None. split; [done|]. by intros g ?%elem_of_nil.
  - destruct (intention_i_spec ps (g0 :: rest)) as (lo & hi & Hi & _ & _ & Hin);
      [done|done|].
    eexists. split; [exact Hi|]. intros g Hg. apply extension_i_satisfies.
    unfold satisfies. rewrite bounds_interval_of. by apply Hin.
Qed.

Lemma descriptions_by_index_distinct (m : gmap string nat)
    (items : list (string * option interval))
    (r acc : list (nat * option interval)) :
  Forall2 (λ item id, m !! item.1 = Some id.1 ∧ item.2 = id.2) items r →
  NoDup (acc.*1 ++ r.*1) →
  MVContext.descriptions_by_index m items acc = Ok (acc ++ r).
Proof.
  intros Hf. revert acc.
  induction Hf as [|[k d] [i d'] items r [Hk Hd] _ IH]; intros acc Hnd; simpl.
  - by rewrite app_nil_r.
  - simpl in *. subst d'. unfold dict_getitem. rewrite Hk, bind_Ok.
    rewrite dict_setitem_fresh.
    + rewrite IH; [by rewrite <- (assoc_L (++))|].
      rewrite fmap_app. csimpl. csimpl in Hnd. by rewrite <- (assoc_L (++)).
    + csimpl in Hnd. apply NoDup_app in Hnd as (_ & Hdis & _).
      intros Hi. apply (Hdis i Hi). left.
Qed.

Lemma object_indexes_valid K objects (g : nat) :
  g ∈ (filter (λ gg : nat * string, gg.2 ∈ (list_to_set objects : gset string))
         (enumerate (_object_names K))).*1 ↔
  ∃ x, _object_names K !! g = Some x ∧ x ∈ objects.
Proof.
  rewrite list_elem_of_fmap. split.
  - intros ([g' x] & -> & [Hx Hin]%list_elem_of_filter). simpl in *.
    apply enumerate_lookup in Hin. apply elem_of_list_to_set in Hx. by exists x.
  - intros (x & Hg & Hx). exists (g, x). split; [done|].
    apply list_elem_of_filter. split.
    + simpl. by apply elem_of_list_to_set.
    + by apply enumerate_lookup.
Qed.

(** What [intention] followed by [extension] computes in a well-formed
    context whose pattern structures have pairwise distinct names. *)
Lemma intention_extension K objects :
  well_formed K →
  NoDup (_name <$> _pattern_structures K) →
  ∃ description e,
    MVContext.intention K objects = Ok description ∧
    MVContext.extension K description = Ok e ∧
    ∀ x, x ∈ objects → x ∈ _object_names K → x ∈ e.
Proof.
  intros [Hn Hwf] Hnd. unfold MVContext.intention.
  set (idx := (filter _ (enumerate (_object_names K))).*1).
  assert (∀ g, g ∈ idx → g < _n_objects K) as Hidx.
  { intros g (x & Hg & _)%object_indexes_valid.
    apply lookup_lt_Some in Hg. lia. }
  rewrite Forall_forall in Hwf.
  (* the descriptions by index *)
  destruct (comprehension_Ok_all
              (λ ix : nat * AbstractPS,
                 d ← IntervalPS.intention_i ix.2 idx; Ok (ix.1, d))
              (enumerate (_pattern_structures K))) as (r & Hr).
  { intros [i ps] Hin%enumerate_lookup. simpl.
    destruct (intention_i_covers ps idx) as (d & -> & _); [|by eexists].
    apply Forall_forall. intros g Hg.
    rewrite (Hwf ps (list_elem_of_lookup_2 _ _ _ Hin)). by apply Hidx. }
  unfold MVContext.intention_i. rewrite Hr, bind_Ok.
  apply comprehension_Forall2 in Hr.
  assert (Forall2 (λ (ix : nat * AbstractPS) (id : nat * option interval),
            id.1 = ix.1 ∧ _pattern_structures K !! ix.1 = Some ix.2 ∧
            ∀ g, g ∈ idx → g ∈ IntervalPS.extension_i ix.2 id.2)
            (enumerate (_pattern_structures K)) r) as Hr'.
  { eapply Forall2_impl_elem; [exact Hr|]. intros [i ps] [i' d] Hin. simpl.
    apply enumerate_lookup in Hin.
    destruct (intention_i_covers ps idx) as (d0 & -> & Hd0).
    { apply Forall_forall. intros g Hg.
      rewrite (Hwf ps (list_elem_of_lookup_2 _ _ _ Hin)). by apply Hidx. }
    rewrite bind_Ok. by intros [= <- <-]. }
  clear Hr.
  (* the descriptions by name *)
  destruct (comprehension_Ok_all
              (λ id : nat * option interval,
                 ps ← getitem (_pattern_structures K) id.1; Ok (_name ps, id.2)) r)
    as (items & Hitems).
  { intros id Hid. apply list_elem_of_lookup in Hid as [j Hj].
    destruct (Forall2_lookup_r _ _ _ _ _ Hr' Hj) as ([i ps] & _ & Hi & Hps & _).
    cbn [fst snd] in *. apply getitem_Ok in Hps. rewrite Hi, Hps. by eexists. }
  rewrite Hitems, bind_Ok. apply comprehension_Forall2 in Hitems.
  assert (Forall2 (λ (ix : nat * AbstractPS) (item : string * option interval),
            item.1 = _name ix.2)
            (enumerate (_pattern_structures K)) items) as Hnames.
  { eapply Forall2_trans; [|exact Hr'|exact Hitems].
    intros [i ps] [i' d] [k d'] (Hi & Hps & _) HQ. cbn [fst snd] in *. subst i'.
    apply getitem_Ok in Hps. rewrite Hps, bind_Ok in HQ. by injection HQ as <- _. }
  assert (items.*1 = _name <$> _pattern_structures K) as Hkeys.
  { rewrite <- (snd_zip (seq 0 (length (_pattern_structures K)))
                        (_pattern_structures K)) by (by rewrite length_seq).
    fold (enumerate (_pattern_structures K)).
    clear -Hnames. induction Hnames as [|ix item ? ? Hn _ IH]; [done|].
    rewrite !fmap_cons. by f_equal. }
  rewrite dict_display_NoDup by (by rewrite Hkeys).
  exists items.
  (* the extension of these descriptions *)
  assert (r.*1 = seq 0 (length (_pattern_structures K))) as Hris.
  { rewrite <- enumerate_fst.
    clear -Hr'. induction Hr' as [|ix id ? ? [Hi _] _ IH]; [done|].
    rewrite !fmap_cons. by f_equal. }
  unfold MVContext.extension.
  rewrite (descriptions_by_index_distinct _ items r []).
  2:{ eapply Forall2_flip, Forall2_impl_elem; [exact Hitems|].
      intros [i d] [k d'] Hin. cbn [fst snd].
      apply list_elem_of_lookup in Hin as [j Hj].
      destruct (Forall2_lookup_r _ _ _ _ _ Hr' Hj) as ([i0 ps] & Hix & Hi & Hps & _).
      cbn [fst snd] in *. subst i0. apply getitem_Ok in Hps as Hget.
      rewrite Hget, bind_Ok. intros [= <- <-]. split; [|done].
      apply index_map_NoDup; [done|]. by rewrite list_lookup_fmap, Hps. }
  2:{ simpl. rewrite Hris. apply NoDup_seq. }
  rewrite bind_Ok. simpl.
  destruct (extension_i_spec K r) as (e & -> & Hsorted & He).
  { apply Forall_forall. intros id Hid.
    assert (id.1 ∈ r.*1) as Hin by (by apply list_elem_of_fmap_2).
    rewrite Hris in Hin. apply elem_of_seq in Hin. lia. }
  rewrite bind_Ok.
  destruct (comprehension_getitem (_object_names K) e) as (names & -> & Hf).
  { apply Forall_forall. intros g [Hg _]%He. lia. }
  exists names. split_and!; [done|done|].
  intros x Hx [g Hg]%list_elem_of_lookup.
  assert (g ∈ idx) as Hgi by (apply object_indexes_valid; by exists x).
  assert (g ∈ e) as Hge.
  { apply He. split; [by apply Hidx|]. intros i d Hid.
    apply list_elem_of_lookup in Hid as [j Hj].
    destruct (Forall2_lookup_r _ _ _ _ _ Hr' Hj) as ([i0 ps] & _ & Hi & Hps & Hcov).
    simpl in *. subst i0. exists ps. split; [done|]. by apply Hcov. }
  apply list_elem_of_lookup in Hge as [j Hj].
  destruct (Forall2_lookup_l _ _ _ _ _ Hf Hj) as (x' & Hx' & Hgx').
  assert (x' = x) as -> by congruence. by eapply list_elem_of_lookup_2.
Qed.

End context_closure.

(** X14. In a constructed context, [extension] with descriptions for
    attributes that all have a pattern structure returns object names in
    the order of the objects, without repeating or adding any: a
    subsequence of the object names. *)
Theorem extension_by_name (data : list (list ext))
    (pattern_types : option (list (string * ps_type)))
    (object_names attribute_names : option (list string))
    (description : option string) (K : MVContext)
    (descriptions : list (string * option interval)) :
  MVContext.init data pattern_types object_names attribute_names description = Ok K →
  Forall (λ kd, kd.1 ∈ _name <$> _pattern_structures K) descriptions →
  ∃ e, MVContext.extension K descriptions = Ok e ∧
       e `sublist_of` _object_names K.
Proof.
  intros [Hn Hwf]%init_well_formed Hknown. unfold MVContext.extension.
  destruct (descriptions_by_index_known
              (index_map (_name <$> _pattern_structures K)) descriptions [])
    as (r & -> & Hr).
  { eapply Forall_impl; [exact Hknown|]. intros kd Hkd.
    apply index_map_elem in Hkd as (i & Hi & _). by exists i. }
  rewrite bind_Ok.
  destruct (extension_i_spec K r) as (e & -> & Hsorted & He).
  { apply Forall_forall. intros id Hid.
    destruct (Hr id.1) as [?%elem_of_nil|(k & Hk)]; [by apply list_elem_of_fmap_2|done|].
    apply index_map_Some, lookup_lt_Some in Hk. by rewrite length_fmap in Hk. }
  rewrite bind_Ok.
  destruct (comprehension_getitem (_object_names K) e) as (names & -> & Hf).
  { apply Forall_forall. intros g [Hg _]%He. lia. }
  exists names. split; [done|].
  apply (lookup_ascending_sublist _ 0 e); [done|..].
  - apply Forall_forall. intros. lia.
  - eapply Forall2_impl; [exact Hf|]. intros g x. by rewrite Nat.sub_0_r.
Qed.

Lemma extension_by_name_witness :
  ∃ e, MVContext.extension context_g1_g2 [("B", Some (Point (Fin 1)))] = Ok e ∧
       e `sublist_of` _object_names context_g1_g2.
Proof.
  apply (extension_by_name data_2x2 types_AB (Some ["g1"; "g2"])
           (Some ["A"; "B"]) None context_g1_g2 [("B", Some (Point (Fin 1)))]).
  - vm_compute. reflexivity.
  - repeat constructor.
Defined.

(** X15. [extension] raises [KeyError] when a description is given for
    a name that no pattern structure of the context carries. *)
Theorem extension_unknown_name (K : MVContext)
    (descriptions : list (string * option interval)) :
  Exists (λ kd, kd.1 ∉ _name <$> _pattern_structures K) descriptions →
  MVContext.extension K descriptions = Raise KeyError.
Proof.
  intros Hex. unfold MVContext.extension.
  rewrite descriptions_by_index_unknown; [done|].
  eapply Exists_impl; [exact Hex|]. intros kd. apply index_map_None.
Qed.

Lemma extension_unknown_name_witness :
  MVContext.extension context_g1_g2 [("A", None); ("C", Some (Point (Fin 1)))]
  = Raise KeyError.
Proof.
  apply (extension_unknown_name context_g1_g2
           [("A", None); ("C", Some (Point (Fin 1)))]).
  apply Exists_cons_tl, Exists_cons_hd.
  apply (bool_decide_unpack _). vm_compute. exact I.
Defined.

(** X16. Closure in a constructed context whose pattern structures have
    pairwise distinct names: for every collection of names, [intention]
    returns a description, [extension] of that description returns, and
    every given name that is an object name of the context is in it. *)
Theorem context_galois_closure (data : list (list ext))
    (pattern_types : option (list (string * ps_type)))
    (object_names attribute_names : option (list string))
    (description : option string) (K : MVContext) (objects : list string) :
  MVContext.init data pattern_types object_names attribute_names description = Ok K →
  NoDup (_name <$> _pattern_structures K) →
  ∃ descriptions e,
    MVContext.intention K objects = Ok descriptions ∧
    MVContext.extension K descriptions = Ok e ∧
    ∀ x, x ∈ objects → x ∈ _object_names K → x ∈ e.
Proof.
  intros Hwf%init_well_formed Hnd. by apply intention_extension.
Qed.

Lemma context_galois_closure_witness :
  ∃ descriptions e,
    MVContext.intention context_g1_g2 ["g2"; "other"] = Ok descriptions ∧
    MVContext.extension context_g1_g2 descriptions = Ok e ∧
    ∀ x, x ∈ ["g2"; "other"] → x ∈ _object_names context_g1_g2 → x ∈ e.
Proof.
  apply (context_galois_closure data_2x2 types_AB (Some ["g1"; "g2"])
           (Some ["A"; "B"]) None context_g1_g2 ["g2"; "other"]).
  - vm_compute. reflexivity.
  - apply (bool_decide_unpack _). vm_compute. exact I.
Defined.

(** ** Comparison *)

Lemma ps_eq_spec (x y : AbstractPS) :
  AbstractPSMethods.__eq__ x y = true ↔ x = y.
Proof.
  unfold AbstractPSMethods.__eq__.
  rewrite andb_true_iff, !bool_decide_eq_true.
  destruct x, y; simpl. split; [by intros [-> ->]|by intros [= -> ->]].
Qed.

Lemma ps_list_eq_spec (l k : list AbstractPS) :
  ps_list_eq l k = true ↔ l = k.
Proof.
  revert k. induction l as [|x l IH]; intros [|y k]; simpl; try done.
  rewrite andb_true_iff, ps_eq_spec, IH. split; [by intros [-> ->]|by intros [= -> ->]].
Qed.

(** X17. Comparing two contexts raises [ValueError] exactly when their
    object names or their attribute names differ.  Otherwise [==]
    returns [True] exactly when the pattern structures agree in names
    and data, [!=] returns the opposite truth value, and the description
    text and the recorded counts take no part in the comparison. *)
Theorem context_comparison (K1 K2 : MVContext) :
  (_object_names K1 ≠ _object_names K2 ∨
   _attribute_names K1 ≠ _attribute_names K2 →
   MVContextCompare.__eq__ K1 K2 = Raise ValueError ∧
   MVContextCompare.__ne__ K1 K2 = Raise ValueError) ∧
  (_object_names K1 = _object_names K2 →
   _attribute_names K1 = _attribute_names K2 →
   ∃ b, MVContextCompare.__eq__ K1 K2 = Ok b ∧
        MVContextCompare.__ne__ K1 K2 = Ok (negb b) ∧
        (b = true ↔ _pattern_structures K1 = _pattern_structures K2)).
Proof.
  unfold MVContextCompare.__eq__, MVContextCompare.__ne__. split.
  - intros [Ho|Ha].
    + by rewrite bool_decide_eq_false_2.
    + by destruct (bool_decide (_object_names K1 = _object_names K2));
        simpl; rewrite ?bool_decide_eq_false_2.
  - intros Ho Ha. rewrite !bool_decide_eq_true_2 by done. simpl.
    eexists. split_and!; [done|done|]. apply ps_list_eq_spec.
Qed.

Lemma context_comparison_witness :
  (_object_names context_g1_g2 ≠ _object_names context_g1_g2 ∨
   _attribute_names context_g1_g2 ≠ _attribute_names context_g1_g2 →
   MVContextCompare.__eq__ context_g1_g2 context_g1_g2 = Raise ValueError ∧
   MVContextCompare.__ne__ context_g1_g2 context_g1_g2 = Raise ValueError) ∧
  (_object_names context_g1_g2 = _object_names context_g1_g2 →
   _attribute_names context_g1_g2 = _attribute_names context_g1_g2 →
   ∃ b, MVContextCompare.__eq__ context_g1_g2 context_g1_g2 = Ok b ∧
        MVContextCompare.__ne__ context_g1_g2 context_g1_g2 = Ok (negb b) ∧
        (b = true ↔ _pattern_structures context_g1_g2
                    = _pattern_structures context_g1_g2)).
Proof. apply (context_comparison context_g1_g2 context_g1_g2). Defined.

(** * Further properties of the decision-lattice predictors *)

Lemma str_le_total : Total str_le.
Proof. intros s t. unfold str_le. apply String.leb_total. Qed.

Section classifier_more.
Import DecisionLatticeClassifier.

Lemma occurrences_le (class_ : string) (extent : list nat) (Y : list string) :
  occurrences class_ extent Y ≤ length extent.
Proof. unfold occurrences. apply length_filter. Qed.

Lemma class_probability_range (class_ : string) (extent : list nat)
    (Y : list string) :
  extent ≠ [] →
  (0 <= class_probability class_ extent Y)%Q ∧
  (class_probability class_ extent Y <= 1)%Q.
Proof.
  intros Hne. unfold class_probability.
  pose proof (occurrences_le class_ extent Y) as Hle.
  assert (0 < length extent) as Hpos by (destruct extent; [done|simpl; lia]).
  set (k := occurrences class_ extent Y) in *. set (n := length extent) in *.
  assert (0 < inject_Z (Z.of_nat n))%Q as Hn.
  { unfold Qlt. simpl. lia. }
  split.
  - apply Qle_shift_div_l; [done|]. rewrite Qmult_0_l.
    unfold Qle. simpl. lia.
  - apply Qle_shift_div_r; [done|]. rewrite Qmult_1_l.
    unfold Qle. simpl. lia.
Qed.

Lemma class_probability_positive (g : nat) (extent : list nat) (Y : list string)
    (y : string) :
  g ∈ extent → Y !! g = Some y →
  (0 < class_probability y extent Y)%Q.
Proof.
  intros Hg Hy. unfold class_probability.
  assert (0 < occurrences y extent Y) as Hocc.
  { unfold occurrences.
    assert (g ∈ filter (λ g, Y !! g = Some y) extent) as Hin
      by (by apply list_elem_of_filter).
    destruct (filter _ extent); [by apply elem_of_nil in Hin|simpl; lia]. }
  assert (0 < length extent) as Hpos.
  { destruct extent; [by apply elem_of_nil in Hg|simpl; lia]. }
  apply Qlt_shift_div_l; [unfold Qlt; simpl; lia|].
  rewrite Qmult_0_l. unfold Qlt. simpl. lia.
Qed.

(** Both branches of [calc_concept_prediction_metrics] return the
    sorted distinct labels as class names. *)
Lemma calc_classes (self : state) (c_i : nat) (Y : list string)
    (mc : gmap string pyval * list string) :
  calc_concept_prediction_metrics self c_i Y = Ok mc →
  mc.2 = merge_sort str_le (elements (list_to_set Y : gset string)).
Proof.
  unfold calc_concept_prediction_metrics.
  destruct (getitem _ c_i) as [c|]; [|done]. rewrite bind_Ok.
  case_bool_decide; [|by intros [= <-]].
  destruct (comprehension _ _) as [class_probs|]; [|done]. rewrite bind_Ok.
  destruct (pyval_max class_probs) as [max_prob|]; [|done]. rewrite bind_Ok.
  by intros [= <-].
Qed.

Lemma fit_loop_length (s s' : state) (c_is : list nat) (Y : list string) :
  fit_loop s c_is Y = Ok s' → length (_lattice s') = length (_lattice s).
Proof.
  revert s. induction c_is as [|j rest IH]; intros s; simpl.
  - by intros [= <-].
  - destruct (calc_concept_prediction_metrics s j Y) as [mc|]; [|done].
    rewrite bind_Ok. destruct (getitem (_lattice s) j) as [cj|]; [|done].
    rewrite bind_Ok. intros ->%IH. simpl. apply length_insert.
Qed.

Lemma fit_loop_class_names (s s' : state) (c_is : list nat) (Y : list string) :
  c_is ≠ [] →
  fit_loop s c_is Y = Ok s' →
  _class_names s' = Some (merge_sort str_le (elements (list_to_set Y : gset string))).
Proof.
  intros Hne. revert s. induction c_is as [|j rest IH]; intros s; [done|]. simpl.
  destruct (calc_concept_prediction_metrics s j Y) as [mc|] eqn:Hcalc; [|done].
  rewrite bind_Ok. destruct (getitem (_lattice s) j) as [cj|]; [|done].
  rewrite bind_Ok. apply calc_classes in Hcalc.
  destruct rest as [|j' rest].
  - simpl. intros [= <-]. simpl. by rewrite Hcalc.
  - by apply IH.
Qed.

(** Iterating over the traced values raises [TypeError] as soon as one
    of them is [None]. *)
Lemma pyval_iter_None (vs : list pyval) :
  VNone ∈ vs → comprehension pyval_iter vs = Raise TypeError.
Proof.
  induction vs as [|v vs IH]; [by intros ?%elem_of_nil|].
  intros [<-|Hin]%elem_of_cons; [done|]. simpl.
  destruct (pyval_iter v) as [l|e] eqn:Hv.
  - rewrite bind_Ok, IH by done. done.
  - destruct v; simplify_eq/=; done.
Qed.

End classifier_more.

Section transposition.

Lemma zip_with_cons_length {A} (r : list A) (cols : list (list A)) :
  length cols = length r →
  length (zip_with cons r cols) = length r ∧
  Forall2 (λ col' xc, col' = xc.1 :: xc.2) (zip_with cons r cols) (zip r cols).
Proof.
  revert cols. induction r as [|x r IH]; intros [|col cols] Hlen; try done.
  simpl in Hlen. destruct (IH cols) as [Hl Hf]; [lia|]. simpl. split; [lia|].
  by constructor.
Qed.

Lemma zip_with_cons_sum (r : list Q) (cols : list (list Q)) :
  length cols = length r →
  (sum_Q (sum_Q <$> zip_with cons r cols) == sum_Q r + sum_Q (sum_Q <$> cols))%Q.
Proof.
  revert cols. induction r as [|x r IH]; intros [|col cols] Hlen; try done.
  simpl in Hlen. csimpl. unfold sum_Q in *. simpl. rewrite IH by lia. ring.
Qed.

(** Transposing rows of one length [k] gives [k] columns, each as long
    as there are rows, with the same total. *)
Lemma zip_star_uniform (rows : list (list Q)) (k : nat) :
  rows ≠ [] →
  Forall (λ row, length row = k) rows →
  length (zip_star rows) = k ∧
  Forall (λ col, length col = length rows) (zip_star rows) ∧
  (sum_Q (sum_Q <$> zip_star rows) == sum_Q (sum_Q <$> rows))%Q.
Proof.
  induction rows as [|r rows IH]; [done|]. intros _ [Hr Hrows]%Forall_cons.
  destruct rows as [|r' rows].
  - simpl. rewrite length_fmap. split_and!; [done|..].
    + apply Forall_fmap, Forall_true. done.
    + clear. unfold sum_Q. simpl. induction r as [|x r IH]; simpl; [done|].
      rewrite IH. ring.
  - destruct IH as (Hlen & Hcols & Hsum); [done|done|].
    change (zip_star (r :: r' :: rows))
      with (zip_with cons r (zip_star (r' :: rows))).
    destruct (zip_with_cons_length r (zip_star (r' :: rows))) as [Hl Hf];
      [lia|].
    split_and!.
    + lia.
    + apply Forall_forall. intros col Hcol.
      apply list_elem_of_lookup in Hcol as [i Hi].
      destruct (Forall2_lookup_l _ _ _ _ _ Hf Hi) as ([x c] & Hxc & ->).
      simpl. f_equal. rewrite Forall_forall in Hcols. apply Hcols.
      apply list_elem_of_lookup_2 in Hxc. by apply elem_of_zip_r in Hxc.
    + rewrite zip_with_cons_sum by lia. rewrite Hsum.
      rewrite (fmap_cons sum_Q r). unfold sum_Q at 4. simpl. done.
Qed.

Lemma sum_Q_means (cols : list (list Q)) (probs : list Q) (n : nat) :
  Forall (λ col, length col = n) cols →
  Forall2 (λ col p, (p == mean col)%Q) cols probs →
  (sum_Q probs == sum_Q (sum_Q <$> cols) / inject_Z (Z.of_nat n))%Q.
Proof.
  intros Hn Hf. induction Hf as [|col p cols probs Hp _ IH].
  - unfold sum_Q, Qdiv. simpl. by rewrite Qmult_0_l.
  - apply Forall_cons in Hn as [Hcol Hn]. csimpl. unfold sum_Q in *. simpl.
    rewrite IH by done. rewrite Hp. unfold mean, sum_Q. rewrite Hcol.
    unfold Qdiv. ring.
Qed.

Lemma sum_Q_ones (rows : list (list Q)) :
  Forall (λ row, (sum_Q row == 1)%Q) rows →
  (sum_Q (sum_Q <$> rows) == inject_Z (Z.of_nat (length rows)))%Q.
Proof.
  induction 1 as [|row rows Hrow _ IH]; [done|].
  csimpl. unfold sum_Q in *. simpl. rewrite IH, Hrow.
  rewrite Nat2Z.inj_succ, <- Z.add_1_l, inject_Z_plus. done.
Qed.

End transposition.

(** X18. At [fit], for a concept with a non-empty extent of valid
    object indices, the maximum class probability is positive and at
    most 1, and at least one class attains it: ["most_probable_class"]
    is built from a non-empty sequence of observed classes. *)
Theorem maximum_class_probability_attained
    (self : DecisionLatticeClassifier.state) (c_i : nat) (c : Concept)
    (Y : list string) :
  DecisionLatticeClassifier._lattice self !! c_i = Some c →
  extent_i c ≠ [] →
  Forall (λ g, g < length Y) (extent_i c) →
  ∃ metrics classes m tied,
    DecisionLatticeClassifier.calc_concept_prediction_metrics self c_i Y
    = Ok (metrics, classes) ∧
    metrics !! "maximum_class_probability" = Some (VNum m) ∧
    (0 < m)%Q ∧ (m <= 1)%Q ∧
    metrics !! "most_probable_class" = Some (single_or_tied tied) ∧
    tied ≠ [] ∧
    (∀ class_, class_ ∈ tied ↔
       class_ ∈ Y ∧ (class_probability class_ (extent_i c) Y == m)%Q).
Proof.
  intros Hc Hne Hall.
  destruct (calc_concept_prediction_metrics_Ok self c_i c Y Hc Hne Hall)
    as (classes & m & Hcl & [Hm_in Hm_max] & Hcalc).
  destruct (observed_classes Y) as [_ Hin]. rewrite <- Hcl in Hin.
  apply list_elem_of_fmap in Hm_in as (cm & Hm & Hcm).
  eexists _, classes, m, _. split_and!; [exact Hcalc|..].
  - rewrite lookup_insert_ne by done. rewrite lookup_insert_ne by done.
    apply lookup_singleton_eq.
  - destruct (extent_i c) as [|g0 rest] eqn:He; [done|].
    apply Forall_cons in Hall as [[y Hy]%lookup_lt_is_Some_2 _].
    eapply Qlt_le_trans.
    + apply (class_probability_positive g0 (g0 :: rest) Y y); [left|done].
    + apply Hm_max. apply list_elem_of_fmap_2'  with y; [|done].
      apply Hin. by eapply list_elem_of_lookup_2.
  - rewrite Hm. by apply class_probability_range.
  - rewrite lookup_insert_ne by done. apply lookup_insert_eq.
  - intros Hnil.
    assert (cm ∈ filter (λ class_,
              (class_probability class_ (extent_i c) Y == m)%Q) classes) as Hf.
    { apply list_elem_of_filter. split; [by rewrite Hm|done]. }
    rewrite Hnil in Hf. by apply elem_of_nil in Hf.
  - intros class_. rewrite list_elem_of_filter, Hin. tauto.
Qed.

Lemma maximum_class_probability_attained_witness :
  ∃ metrics classes m tied,
    DecisionLatticeClassifier.calc_concept_prediction_metrics tie_unfit 0 tie_Y
    = Ok (metrics, classes) ∧
    metrics !! "maximum_class_probability" = Some (VNum m) ∧
    (0 < m)%Q ∧ (m <= 1)%Q ∧
    metrics !! "most_probable_class" = Some (single_or_tied tied) ∧
    tied ≠ [] ∧
    (∀ class_, class_ ∈ tied ↔
       class_ ∈ tie_Y ∧
       (class_probability class_ (extent_i tie_concept) tie_Y == m)%Q).
Proof.
  apply (maximum_class_probability_attained tie_unfit 0 tie_concept tie_Y).
  - reflexivity.
  - discriminate.
  - repeat constructor; simpl; lia.
Defined.

(** X19. For an object to which the tracer assigns no concept, the
    classifier's [predict] never returns: averaging yields the empty
    vector and [max] of it raises [ValueError].  [predict_proba], when
    it returns, holds the empty vector for that object. *)
Theorem classifier_untraced_object (self : DecisionLatticeClassifier.state)
    (bottom_concepts : list (list nat)) (n_objects g_i : nat) :
  g_i < n_objects →
  bottom_concepts !! g_i = Some [] →
  DecisionLatticeClassifier.average_concepts_predictions self [] = Raise ValueError ∧
  (∀ predictions,
     DecisionLatticeClassifier.predict self bottom_concepts n_objects
     ≠ Ok predictions) ∧
  (∀ predictions,
     DecisionLatticeClassifier.predict_proba self bottom_concepts n_objects
     = Ok predictions →
     predictions !! g_i = Some []).
Proof.
  intros Hg Hb. split_and!; [done|..].
  - intros predictions Hp.
    destruct (predict_per_object _ _ _ _ Hp g_i Hg) as (cs & p & Hcs & Havg & _).
    by assert (cs = []) as -> by congruence.
  - intros predictions Hp.
    destruct (predict_per_object _ _ _ _ Hp g_i Hg) as (cs & p & Hcs & Havg & Hl).
    assert (cs = []) as -> by congruence. by injection Havg as <-.
Qed.

Lemma classifier_untraced_object_witness :
  DecisionLatticeClassifier.average_concepts_predictions tie_fitted []
  = Raise ValueError ∧
  (∀ predictions,
     DecisionLatticeClassifier.predict tie_fitted [[0]; []] 2 ≠ Ok predictions) ∧
  (∀ predictions,
     DecisionLatticeClassifier.predict_proba tie_fitted [[0]; []] 2
     = Ok predictions →
     predictions !! 1 = Some []).
Proof.
  apply (classifier_untraced_object tie_fitted [[0]; []] 2 1).
  - lia.
  - reflexivity.
Defined.

(** X20. When one of the traced concepts holds [None] under
    ["class_probabilities"], as a concept with an empty extent does
    after [fit], averaging the class probabilities raises
    [TypeError]. *)
Theorem classifier_absent_probabilities (self : DecisionLatticeClassifier.state)
    (concepts_i : list nat) (vs : list pyval) :
  Forall2 (λ c_i v, ∃ c, DecisionLatticeClassifier._lattice self !! c_i = Some c ∧
                         measures c !! "class_probabilities" = Some v)
    concepts_i vs →
  VNone ∈ vs →
  DecisionLatticeClassifier.average_concepts_class_probabilities self concepts_i
  = Raise TypeError ∧
  DecisionLatticeClassifier.average_concepts_predictions self concepts_i
  = Raise TypeError.
Proof.
  intros Hvs Hin.
  assert (DecisionLatticeClassifier.average_concepts_class_probabilities
            self concepts_i = Raise TypeError) as Havg.
  { unfold DecisionLatticeClassifier.average_concepts_class_probabilities.
    assert (comprehension (λ c_i,
              c ← getitem (DecisionLatticeClassifier._lattice self) c_i;
              dict_getitem (measures c) "class_probabilities") concepts_i
            = Ok vs) as ->.
    { apply comprehension_of_Forall2. eapply Forall2_impl; [exact Hvs|].
      intros c_i v (c & Hc & Hm). apply getitem_Ok in Hc. rewrite Hc, bind_Ok.
      unfold dict_getitem. by rewrite Hm. }
    rewrite bind_Ok. by rewrite pyval_iter_None. }
  split; [done|].
  unfold DecisionLatticeClassifier.average_concepts_predictions. by rewrite Havg.
Qed.

Lemma classifier_absent_probabilities_witness :
  DecisionLatticeClassifier.average_concepts_class_probabilities
    (DecisionLatticeClassifier.mkState
       [mkConcept [] {[ "class_probabilities" := VNone ]}] (Some ["A"])) [0]
  = Raise TypeError ∧
  DecisionLatticeClassifier.average_concepts_predictions
    (DecisionLatticeClassifier.mkState
       [mkConcept [] {[ "class_probabilities" := VNone ]}] (Some ["A"])) [0]
  = Raise TypeError.
Proof.
  apply (classifier_absent_probabilities
           (DecisionLatticeClassifier.mkState
              [mkConcept [] {[ "class_probabilities" := VNone ]}] (Some ["A"]))
           [0] [VNone]).
  - repeat constructor. eexists. split; reflexivity.
  - left.
Defined.

(** X21. When one of the traced concepts holds [None] under ["mean_y"],
    as a concept with an empty extent does after [fit], the regressor's
    averaging raises [TypeError]. *)
Theorem regressor_absent_mean (lattice : list Concept) (concepts_i : list nat)
    (ms : list pyval) :
  Forall2 (λ c_i m, ∃ c, lattice !! c_i = Some c ∧ measures c !! "mean_y" = Some m)
    concepts_i ms →
  VNone ∈ ms →
  DecisionLatticeRegressor.average_concepts_predictions lattice concepts_i
  = Raise TypeError.
Proof.
  intros Hms Hin. apply traced_predictions in Hms.
  unfold DecisionLatticeRegressor.average_concepts_predictions.
  rewrite Hms, bind_Ok. rewrite bool_decide_eq_true_2.
  - unfold pyval_sum. by rewrite pyval_sum_from_None.
  - destruct ms; [by apply elem_of_nil in Hin|simpl; lia].
Qed.

Lemma regressor_absent_mean_witness :
  DecisionLatticeRegressor.average_concepts_predictions fitted_lattice [1; 0]
  = Raise TypeError.
Proof.
  apply (regressor_absent_mean fitted_lattice [1; 0] [VNum (7 # 4)%Q; VNone]).
  - repeat constructor; eexists; split; reflexivity.
  - right. left.
Defined.

(** X22. A successful [fit] of the classifier keeps the concepts of the
    built lattice in place: as many concepts, each with its extent and
    with every measure that the builder had put there unchanged; and, on
    a lattice with at least one concept, it records as class names the
    distinct labels of [Y] in ascending order. *)
Theorem classifier_fit_keeps_lattice (self fitted : DecisionLatticeClassifier.state)
    (built : list Concept) (Y : list string) :
  DecisionLatticeClassifier.fit self built Y = Ok fitted →
  length (DecisionLatticeClassifier._lattice fitted) = length built ∧
  (∀ c_i c, built !! c_i = Some c →
     ∃ c', DecisionLatticeClassifier._lattice fitted !! c_i = Some c' ∧
           extent_i c' = extent_i c ∧
           ∀ key v, measures c !! key = Some v → measures c' !! key = Some v) ∧
  (built ≠ [] →
   ∃ classes, DecisionLatticeClassifier._class_names fitted = Some classes ∧
              Sorted str_le classes ∧ NoDup classes ∧
              ∀ y, y ∈ classes ↔ y ∈ Y).
Proof.
  intros Hfit. split_and!.
  - unfold DecisionLatticeClassifier.fit in Hfit.
    by apply fit_loop_length in Hfit.
  - intros c_i c Hc.
    destruct (fit_stores_metrics self fitted built Y c_i c Hfit Hc)
      as (mc & _ & Hl).
    eexists. split_and!; [exact Hl|done|].
    intros key v Hv. simpl. by apply lookup_union_Some_l.
  - intros Hne. unfold DecisionLatticeClassifier.fit in Hfit.
    apply fit_loop_class_names in Hfit.
    2:{ destruct built; [done|]. simpl. discriminate. }
    eexists. split; [exact Hfit|].
    destruct (observed_classes Y) as [Hnd Hin]. split_and!; [|done|done].
    pose proof str_le_total. apply Sorted_merge_sort; apply _.
Qed.

Lemma classifier_fit_keeps_lattice_witness :
  length (DecisionLatticeClassifier._lattice tie_fitted) = length [tie_concept] ∧
  (∀ c_i c, [tie_concept] !! c_i = Some c →
     ∃ c', DecisionLatticeClassifier._lattice tie_fitted !! c_i = Some c' ∧
           extent_i c' = extent_i c ∧
           ∀ key v, measures c !! key = Some v → measures c' !! key = Some v) ∧
  ([tie_concept] ≠ [] →
   ∃ classes, DecisionLatticeClassifier._class_names tie_fitted = Some classes ∧
              Sorted str_le classes ∧ NoDup classes ∧
              ∀ y, y ∈ classes ↔ y ∈ tie_Y).
Proof.
  apply (classifier_fit_keeps_lattice tie_unfit tie_fitted [tie_concept] tie_Y).
  by vm_compute.
Defined.

Section regressor_more.
Import DecisionLatticeRegressor.

Lemma regressor_fit_loop_length (l l' : list Concept) (c_is : list nat) (Y : list Q) :
  fit_loop l c_is Y = Ok l' → length l' = length l.
Proof.
  revert l. induction c_is as [|j rest IH]; intros l; simpl.
  - by intros [= <-].
  - destruct (calc_concept_prediction_metrics l j Y) as [metrics|]; [|done].
    rewrite bind_Ok. destruct (getitem l j) as [cj|]; [|done].
    rewrite bind_Ok. intros ->%IH. apply length_insert.
Qed.

Lemma labels_of_extent (Y : list Q) (extent : list nat) (vs : list pyval) :
  comprehension (λ g_i, y ← getitem Y g_i; Ok (VNum y)) extent = Ok vs →
  ∃ ys, vs = VNum <$> ys ∧ Forall2 (λ g y, Y !! g = Some y) extent ys.
Proof.
  intros H%comprehension_Forall2.
  induction H as [|g v extent vs Hgv _ (ys & -> & IH)].
  - by exists [].
  - destruct (getitem Y g) as [y|] eqn:Hy; [|done]. rewrite bind_Ok in Hgv.
    injection Hgv as <-. apply getitem_Ok in Hy.
    exists (y :: ys). split; [done|]. by constructor.
Qed.

(** The metrics of the regressor for one concept. *)
Lemma regressor_calc_mean (lattice : list Concept) (c_i : nat) (c : Concept)
    (Y : list Q) (metrics : gmap string pyval) :
  lattice !! c_i = Some c →
  calc_concept_prediction_metrics lattice c_i Y = Ok metrics →
  (extent_i c = [] → metrics !! "mean_y" = Some VNone) ∧
  (extent_i c ≠ [] →
   ∃ ys q, Forall2 (λ g y, Y !! g = Some y) (extent_i c) ys ∧
           metrics !! "mean_y" = Some (VNum q) ∧ (q == mean ys)%Q).
Proof.
  intros Hc%getitem_Ok. unfold calc_concept_prediction_metrics.
  rewrite Hc, bind_Ok. case_bool_decide as Hlen.
  - destruct (comprehension _ (extent_i c)) as [vs|] eqn:Hvs; [|done].
    rewrite bind_Ok. apply labels_of_extent in Hvs as (ys & -> & Hys).
    destruct (pyval_sum_nums ys) as (s & -> & Hs). rewrite bind_Ok. simpl.
    rewrite bool_decide_eq_false_2 by done. simpl. intros [= <-]. split.
    + intros He. by rewrite He in Hlen.
    + intros _. eexists ys, _. split_and!; [done|apply lookup_singleton_eq|].
      unfold mean. by rewrite Hs, <- (Forall2_length _ _ _ Hys).
  - intros [= <-]. split; [intros _; apply lookup_singleton_eq|].
    intros Hne. destruct (extent_i c); [done|]. simpl in Hlen. discriminate Hlen.
Qed.

End regressor_more.

(** X23. A successful [fit] of the regressor keeps the concepts of the
    built lattice in place, with their extents and the builder's
    measures, and gives every concept on which the builder had put no
    ["mean_y"] the arithmetic mean of the labels of its extent, or [None]
    when the extent is empty. *)
Theorem regressor_fit_stores_mean (built fitted : list Concept) (Y : list Q) :
  DecisionLatticeRegressor.fit built Y = Ok fitted →
  length fitted = length built ∧
  ∀ c_i c, built !! c_i = Some c →
    ∃ c', fitted !! c_i = Some c' ∧
          extent_i c' = extent_i c ∧
          (∀ key v, measures c !! key = Some v → measures c' !! key = Some v) ∧
          (measures c !! "mean_y" = None →
           (extent_i c = [] → measures c' !! "mean_y" = Some VNone) ∧
           (extent_i c ≠ [] →
            ∃ ys q, Forall2 (λ g y, Y !! g = Some y) (extent_i c) ys ∧
                    measures c' !! "mean_y" = Some (VNum q) ∧ (q == mean ys)%Q)).
Proof.
  intros Hfit. split.
  - unfold DecisionLatticeRegressor.fit in Hfit.
    by apply regressor_fit_loop_length in Hfit.
  - intros c_i c Hc.
    destruct (regressor_fit_stores_metrics built fitted Y c_i c Hfit Hc)
      as (metrics & Hcalc & Hl & _).
    destruct (regressor_calc_mean built c_i c Y metrics Hc Hcalc) as [He Hne].
    eexists. split_and!; [exact Hl|done|..].
    + intros key v Hv. simpl. by apply lookup_union_Some_l.
    + intros Hnone. rewrite (merge_measures_lookup metrics c "mean_y" Hnone).
      done.
Qed.

Lemma regressor_fit_stores_mean_witness :
  length fitted_lattice = length built_lattice ∧
  ∀ c_i c, built_lattice !! c_i = Some c →
    ∃ c', fitted_lattice !! c_i = Some c' ∧
          extent_i c' = extent_i c ∧
          (∀ key v, measures c !! key = Some v → measures c' !! key = Some v) ∧
          (measures c !! "mean_y" = None →
           (extent_i c = [] → measures c' !! "mean_y" = Some VNone) ∧
           (extent_i c ≠ [] →
            ∃ ys q, Forall2 (λ g y, labels_Y !! g = Some y) (extent_i c) ys ∧
                    measures c' !! "mean_y" = Some (VNum q) ∧ (q == mean ys)%Q)).
Proof.
  apply (regressor_fit_stores_mean built_lattice fitted_lattice labels_Y).
  by vm_compute.
Defined.

(** X24. [predict_proba] yields probability vectors: when every traced
    concept of an object holds, under ["class_probabilities"], a vector
    of one common length that sums to 1, the averaged vector has that
    length and sums to 1. *)
Theorem averaged_probabilities_normalized
    (self : DecisionLatticeClassifier.state) (concepts_i : list nat)
    (rows : list (list Q)) (k : nat) :
  concepts_i ≠ [] →
  Forall2 (λ c_i row, ∃ c, DecisionLatticeClassifier._lattice self !! c_i = Some c ∧
             measures c !! "class_probabilities" = Some (VList (VNum <$> row)))
    concepts_i rows →
  Forall (λ row, length row = k ∧ (sum_Q row == 1)%Q) rows →
  ∃ probs,
    DecisionLatticeClassifier.average_concepts_class_probabilities self concepts_i
    = Ok (VNum <$> probs) ∧
    length probs = k ∧ (sum_Q probs == 1)%Q.
Proof.
  intros Hne Hrows Hall.
  assert (rows ≠ []) as Hrne.
  { intros ->. apply Forall2_length in Hrows. by destruct concepts_i. }
  apply Forall_and in Hall as [Hlen Hsum].
  destruct (average_concepts_class_probabilities_Ok self concepts_i rows Hrows)
    as (probs & Havg & Hmeans).
  destruct (zip_star_uniform rows k Hrne Hlen) as (Hk & Hcols & Htotal).
  exists probs. split_and!; [done|..].
  - by rewrite <- (Forall2_length _ _ _ Hmeans).
  - rewrite (sum_Q_means _ _ _ Hcols Hmeans), Htotal, (sum_Q_ones rows Hsum).
    unfold Qdiv. apply Qmult_inv_r.
    destruct rows; [done|]. simpl length. rewrite Nat2Z.inj_succ.
    unfold Qeq. simpl. lia.
Qed.

Lemma averaged_probabilities_normalized_witness :
  ∃ probs,
    DecisionLatticeClassifier.average_concepts_class_probabilities tie_fitted [0; 0]
    = Ok (VNum <$> probs) ∧
    length probs = 2 ∧ (sum_Q probs == 1)%Q.
Proof.
  apply (averaged_probabilities_normalized tie_fitted [0; 0]
           [[(2 # 4)%Q; (2 # 4)%Q]; [(2 # 4)%Q; (2 # 4)%Q]] 2).
  - discriminate.
  - repeat constructor; eexists; split; reflexivity.
  - repeat constructor.
Defined.

(** * Fit followed by predict *)

(** A comprehension over [range(n)] whose body returns for every index
    returns one result per index. *)
Lemma comprehension_range {A} (f : nat → result A) (P : nat → A → Prop)
    (j n : nat) :
  (∀ g, j ≤ g < j + n → ∃ p, f g = Ok p ∧ P g p) →
  ∃ r, comprehension f (seq j n) = Ok r ∧ length r = n ∧
       ∀ i, i < n → ∃ p, r !! i = Some p ∧ P (j + i) p.
Proof.
  revert j. induction n as [|n IH]; intros j Hall; simpl.
  - exists []. split_and!; [done|done|]. intros i Hi. lia.
  - destruct (Hall j) as (p & -> & Hp); [lia|]. rewrite bind_Ok.
    destruct (IH (S j)) as (r & -> & Hlen & Hr).
    { intros g Hg. apply Hall. lia. }
    rewrite bind_Ok. exists (p :: r). split_and!; [done|simpl; lia|].
    intros [|i] Hi.
    + exists p. by rewrite Nat.add_0_r.
    + destruct (Hr i) as (p' & Hp' & HP'); [lia|]. exists p'.
      split; [done|]. by replace (j + S i) with (S j + i) by lia.
Qed.

(** [predict]-style loops: one result per object when the body returns
    for the traced concepts of every object. *)
Lemma predict_range {A} (average : list nat → result A)
    (P : list nat → A → Prop) (bottom_concepts : list (list nat))
    (n_objects : nat) :
  n_objects ≤ length bottom_concepts →
  (∀ g_i cs, g_i < n_objects → bottom_concepts !! g_i = Some cs →
             ∃ p, average cs = Ok p ∧ P cs p) →
  ∃ predictions,
    comprehension (λ g_i, cs ← getitem bottom_concepts g_i; average cs)
      (seq 0 n_objects) = Ok predictions ∧
    length predictions = n_objects ∧
    ∀ g_i cs, g_i < n_objects → bottom_concepts !! g_i = Some cs →
              ∃ p, predictions !! g_i = Some p ∧ P cs p.
Proof.
  intros Hn Hall.
  destruct (comprehension_range
              (λ g_i, cs ← getitem bottom_concepts g_i; average cs)
              (λ g_i p, ∀ cs, bottom_concepts !! g_i = Some cs → P cs p)
              0 n_objects) as (r & Hr & Hlen & Hpred).
  { intros g Hg.
    destruct (getitem_lt bottom_concepts g) as (cs & Hget & Hcs); [lia|].
    destruct (Hall g cs) as (p & Hp & HP); [lia|done|].
    exists p. rewrite Hget, bind_Ok. split; [done|].
    intros cs' Hcs'. by assert (cs' = cs) as -> by congruence. }
  exists r. split_and!; [done|done|].
  intros g_i cs Hg Hcs. destruct (Hpred g_i Hg) as (p & Hp & HP).
  exists p. split; [done|]. by apply HP.
Qed.

Lemma labels_of_lookup (Y : list Q) (extent : list nat) (ys : list Q) :
  Forall2 (λ g y, Y !! g = Some y) extent ys → labels_of Y extent = ys.
Proof.
  unfold labels_of. induction 1 as [|g y extent ys Hgy _ IH]; [done|].
  csimpl. by rewrite Hgy, IH.
Qed.

Section classifier_pipeline.
Import DecisionLatticeClassifier.

(** A concept whose metrics were computed has an extent of valid object
    indices. *)
Lemma calc_Ok_valid (self : state) (c_i : nat) (c : Concept) (Y : list string)
    (mc : gmap string pyval * list string) :
  _lattice self !! c_i = Some c →
  extent_i c ≠ [] →
  calc_concept_prediction_metrics self c_i Y = Ok mc →
  Forall (λ g, g < length Y) (extent_i c).
Proof.
  intros Hc%getitem_Ok Hne. unfold calc_concept_prediction_metrics.
  rewrite Hc, bind_Ok.
  assert (0 < length (extent_i c)) as Hpos.
  { destruct (extent_i c); [done|simpl; lia]. }
  rewrite bool_decide_eq_true_2 by done.
  destruct (comprehension _ _) as [class_probs|] eqn:Hprobs; [|done].
  rewrite bind_Ok.
  destruct (pyval_max class_probs) as [max_prob|] eqn:Hmax; [|done].
  intros _. apply comprehension_Forall2 in Hprobs.
  destruct Hprobs as [|class_ p classes class_probs Hp _]; [done|].
  unfold calc_class_probability in Hp.
  rewrite bool_decide_eq_true_2 in Hp by done.
  destruct (comprehension _ (extent_i c)) as [hits|] eqn:Hhits; [|done].
  apply comprehension_Forall2 in Hhits.
  apply Forall_forall. intros g Hg.
  apply list_elem_of_lookup in Hg as [i Hi].
  destruct (Forall2_lookup_l _ _ _ _ _ Hhits Hi) as (b & _ & Hb).
  destruct (getitem Y g) as [y|] eqn:Hy; [|done].
  apply getitem_Ok in Hy. by eapply lookup_lt_Some.
Qed.

(** What [fit] stores for a concept with a non-empty extent. *)
Lemma fit_concept (self fitted : state) (built : list Concept)
    (Y : list string) (c_i : nat) (c : Concept) :
  fit self built Y = Ok fitted →
  built !! c_i = Some c →
  extent_i c ≠ [] →
  ∃ m,
    let classes := merge_sort str_le (elements (list_to_set Y : gset string)) in
    let probs := (λ class_, class_probability class_ (extent_i c) Y) <$> classes in
    Forall (λ g, g < length Y) (extent_i c) ∧
    is_max_Q m probs ∧
    _class_names fitted = Some classes ∧
    _lattice fitted !! c_i
    = Some (merge_measures
              {[ "class_probabilities" := VList (VNum <$> probs);
                 "most_probable_class" :=
                   single_or_tied
                     (filter (λ class_,
                        (class_probability class_ (extent_i c) Y == m)%Q) classes);
                 "maximum_class_probability" := VNum m ]} c).
Proof.
  intros Hfit Hc Hne.
  destruct (fit_stores_metrics self fitted built Y c_i c Hfit Hc)
    as (mc & Hcalc & Hl).
  pose proof (calc_Ok_valid (mkState built (_class_names self)) c_i c Y mc
                Hc Hne Hcalc) as Hvalid.
  destruct (calc_concept_prediction_metrics_Ok
              (mkState built (_class_names self)) c_i c Y Hc Hne Hvalid)
    as (classes & m & -> & Hmax & Hcalc').
  rewrite Hcalc' in Hcalc. injection Hcalc as <-.
  exists m. simpl. split_and!; [done|done| |done].
  unfold fit in Hfit. apply fit_loop_class_names in Hfit; [done|].
  apply lookup_lt_Some in Hc. destruct built; [simpl in Hc; lia|]. simpl.
  discriminate.
Qed.




End classifier_pipeline.

(** ** Claims about the predictors *)

(** C7. For every concept with a non-empty extent that
    [DecisionLatticeClassifier.fit] annotates, and on which the lattice
    builder had put no ["class_probabilities"] of its own, the fitted
    lattice holds under ["class_probabilities"] one probability per
    observed class (the distinct labels of [Y] in ascending order, also
    recorded as class names): the number of extent objects of that class
    divided by the size of the extent; and these probabilities sum to
    exactly 1. *)
Theorem class_probabilities_normalized
    (self fitted : DecisionLatticeClassifier.state) (built : list Concept)
    (Y : list string) (c_i : nat) (c : Concept) :
  DecisionLatticeClassifier.fit self built Y = Ok fitted →
  built !! c_i = Some c →
  extent_i c ≠ [] →
  measures c !! "class_probabilities" = None →
  ∃ c' classes probs,
    DecisionLatticeClassifier._lattice fitted !! c_i = Some c' ∧
    extent_i c' = extent_i c ∧
    DecisionLatticeClassifier._class_names fitted = Some classes ∧
    Sorted str_le classes ∧ NoDup classes ∧ (∀ y, y ∈ classes ↔ y ∈ Y) ∧
    measures c' !! "class_probabilities" = Some (VList (VNum <$> probs)) ∧
    probs = (λ class_, class_probability class_ (extent_i c) Y) <$> classes ∧
    (sum_Q probs == 1)%Q.
Proof.
  intros Hfit Hc Hne Hkey.
  destruct (fit_concept self fitted built Y c_i c Hfit Hc Hne)
    as (m & Hvalid & _ & Hnames & Hl).
  destruct (observed_classes Y) as [Hnd Hin].
  eexists _, _, _. split_and!; [exact Hl|done|exact Hnames|..|done|].
  - pose proof str_le_total. apply Sorted_merge_sort; apply _.
  - done.
  - done.
  - rewrite merge_measures_lookup by done. apply lookup_insert_eq.
  - apply probabilities_sum_to_one; try done. intros y. apply Hin.
Qed.

Lemma class_probabilities_normalized_witness :
  ∃ c' classes probs,
    DecisionLatticeClassifier._lattice two_fitted !! 0 = Some c' ∧
    extent_i c' = extent_i (mkConcept [0; 1; 2] ∅) ∧
    DecisionLatticeClassifier._class_names two_fitted = Some classes ∧
    Sorted str_le classes ∧ NoDup classes ∧ (∀ y, y ∈ classes ↔ y ∈ tie_Y) ∧
    measures c' !! "class_probabilities" = Some (VList (VNum <$> probs)) ∧
    probs = (λ class_,
               class_probability class_ (extent_i (mkConcept [0; 1; 2] ∅)) tie_Y)
              <$> classes ∧
    (sum_Q probs == 1)%Q.
Proof.
  apply (class_probabilities_normalized two_unfit two_fitted two_built tie_Y 0
           (mkConcept [0; 1; 2] ∅)).
  - by vm_compute.
  - reflexivity.
  - discriminate.
  - reflexivity.
Defined.

(** C1, amended. [DecisionLatticeRegressor.fit] leaves under ["mean_y"]
    of every concept on which the builder had put no ["mean_y"] the
    arithmetic mean of the labels of its extent, or [None] when the
    extent is empty.  On the fitted lattice, when the traced concepts of
    every object of the context hold a number under ["mean_y"],
    [predict] returns one prediction per object: the arithmetic mean of
    the ["mean_y"] measures of the traced concepts of that object, and
    the value [None], returned and not raised, for an object that has
    no traced concept. *)
Theorem regressor_prediction (built fitted : list Concept) (Y : list Q)
    (bottom_concepts : list (list nat)) (n_objects : nat) :
  DecisionLatticeRegressor.fit built Y = Ok fitted →
  n_objects ≤ length bottom_concepts →
  (∀ g_i cs c_i, g_i < n_objects → bottom_concepts !! g_i = Some cs → c_i ∈ cs →
     ∃ c q, fitted !! c_i = Some c ∧ measures c !! "mean_y" = Some (VNum q)) →
  (∀ c_i c, built !! c_i = Some c → measures c !! "mean_y" = None →
     ∃ c', fitted !! c_i = Some c' ∧
           (extent_i c = [] → measures c' !! "mean_y" = Some VNone) ∧
           (extent_i c ≠ [] →
            ∃ q, measures c' !! "mean_y" = Some (VNum q) ∧
                 (q == mean (labels_of Y (extent_i c)))%Q)) ∧
  ∃ predictions,
    DecisionLatticeRegressor.predict fitted bottom_concepts n_objects
    = Ok predictions ∧
    length predictions = n_objects ∧
    ∀ g_i cs, g_i < n_objects → bottom_concepts !! g_i = Some cs →
      (cs = [] → predictions !! g_i = Some VNone) ∧
      (cs ≠ [] →
       ∃ qs q,
         Forall2 (λ c_i q, ∃ c, fitted !! c_i = Some c ∧
                                measures c !! "mean_y" = Some (VNum q)) cs qs ∧
         predictions !! g_i = Some (VNum q) ∧ (q == mean qs)%Q).
Proof.
  intros Hfit Hn Htraced. split.
  - intros c_i c Hc Hkey.
    destruct (regressor_fit_stores_metrics built fitted Y c_i c Hfit Hc)
      as (metrics & Hcalc & Hl & _).
    destruct (regressor_calc_mean built c_i c Y metrics Hc Hcalc) as [He Hne].
    eexists. split_and!; [exact Hl|..];
      rewrite (merge_measures_lookup metrics c "mean_y" Hkey); [done|].
    intros (ys & q & Hys & Hq & Hmean)%Hne. exists q. split; [done|].
    by rewrite (labels_of_lookup _ _ _ Hys).
  - unfold DecisionLatticeRegressor.predict.
    destruct (predict_range
                (DecisionLatticeRegressor.average_concepts_predictions fitted)
                (λ cs p,
                   (cs = [] → p = VNone) ∧
                   (cs ≠ [] →
                    ∃ qs q,
                      Forall2 (λ c_i q, ∃ c, fitted !! c_i = Some c ∧
                                 measures c !! "mean_y" = Some (VNum q)) cs qs ∧
                      p = VNum q ∧ (q == mean qs)%Q))
                bottom_concepts n_objects Hn) as (predictions & Hp & Hlen & Hall).
    { intros g_i cs Hg Hcs.
      assert (∃ qs, Forall2 (λ c_i q, ∃ c, fitted !! c_i = Some c ∧
                               measures c !! "mean_y" = Some (VNum q)) cs qs)
        as (qs & Hqs).
      { assert (∀ c_i, c_i ∈ cs → ∃ c q, fitted !! c_i = Some c ∧
                  measures c !! "mean_y" = Some (VNum q)) as Hin
          by (intros c_i; by apply (Htraced g_i cs c_i)).
        clear Htraced Hcs. induction cs as [|c_i cs IH]; [by exists []|].
        destruct (Hin c_i) as (c & q & Hc & Hq); [left|].
        destruct IH as (qs & Hqs); [intros ? ?; apply Hin; by right|].
        exists (q :: qs). constructor; [by exists c|done]. }
      destruct (average_concepts_predictions_mean fitted cs qs Hqs)
        as [Hnil Hmean].
      destruct cs as [|c_i cs].
      - exists VNone. split; [done|]. by split.
      - destruct Hmean as (q & Hq & Hqm); [done|].
        exists (VNum q). split; [done|]. split; [done|].
        intros _. by exists qs, q. }
    exists predictions. split_and!; [done|done|].
    intros g_i cs Hg Hcs.
    destruct (Hall g_i cs Hg Hcs) as (p & Hp' & Hnil & Hne). split.
    + intros Hcs0. by rewrite Hp', (Hnil Hcs0).
    + intros Hcs0. destruct (Hne Hcs0) as (qs & q & Hqs & -> & Hq).
      by exists qs, q.
Qed.

Lemma regressor_prediction_witness :
  (∀ c_i c, built_lattice !! c_i = Some c → measures c !! "mean_y" = None →
     ∃ c', fitted_lattice !! c_i = Some c' ∧
           (extent_i c = [] → measures c' !! "mean_y" = Some VNone) ∧
           (extent_i c ≠ [] →
            ∃ q, measures c' !! "mean_y" = Some (VNum q) ∧
                 (q == mean (labels_of labels_Y (extent_i c)))%Q)) ∧
  ∃ predictions,
    DecisionLatticeRegressor.predict fitted_lattice [[1; 1]; []; [1]] 3
    = Ok predictions ∧
    length predictions = 3 ∧
    ∀ g_i cs, g_i < 3 → [[1; 1]; []; [1]] !! g_i = Some cs →
      (cs = [] → predictions !! g_i = Some VNone) ∧
      (cs ≠ [] →
       ∃ qs q,
         Forall2 (λ c_i q, ∃ c, fitted_lattice !! c_i = Some c ∧
                                measures c !! "mean_y" = Some (VNum q)) cs qs ∧
         predictions !! g_i = Some (VNum q) ∧ (q == mean qs)%Q).
Proof.
  apply (regressor_prediction built_lattice fitted_lattice labels_Y
           [[1; 1]; []; [1]] 3).
  - by vm_compute.
  - simpl. lia.
  - intros g_i cs c_i Hg Hcs Hc.
    assert (c_i = 1) as ->.
    { destruct g_i as [|[|[|g_i]]]; simpl in Hcs; [..|lia];
        injection Hcs as <-;
        repeat (apply elem_of_cons in Hc as [Hc|Hc]; [done|]);
        by apply elem_of_nil in Hc. }
    eexists _, _. split; reflexivity.
Defined.

Section classifier_rule.
Import DecisionLatticeClassifier.





End classifier_rule.

